(** * ultra_downloader: the download server (src/server.js)

    A shallow embedding of the server's logic and the properties it
    satisfies:

    - the Format Translator inside the [/api/info] handler
      (server.js lines 94-127) and [formatDuration] (lines 483-487),
    - the progress stream of [/api/download/progress] (lines 158-175),
    - the Metadata Embedder [embedMetadata] (lines 178-261),
    - the [/api/download] handler with its retry loop (lines 264-438) and
      its helper [fetchVideoInfo] (lines 441-480).

    Not modelled: the start-up checks, the assembly of the [/api/info]
    response, [formatViews] and [formatDate] (floating point and locale
    dependent), and the static file routes.

    Conventions.  A JavaScript string is the [string] of its UTF-8
    bytes.  A JavaScript number that is a whole number is the [Z] of its
    value (the Extractor's heights and sizes, exit codes, seconds); where
    the server computes with it, the rounding of Numbers is written out
    ([Js.roundEven], [Js.parseInt], [Js.showZ], [Js.floorDivide]).  The
    Extractor's bit rates and the scraped percentages are [Q], the exact
    value of the decimal read.  A field that is absent, [undefined] or
    [null] is [None].  Everything the server does to the outside world is
    recorded, in order, in a log of [effect]s; everything the outside world
    does (subprocess callbacks, HTTP download of a thumbnail, generated
    uuids) is read from an explicit oracle, which describes runs that come
    to an end.  Console output is not modelled. *)

From Stdlib Require Import ZArith QArith Ascii String List Permutation Sorted Lia.
From Stdlib Require Import DecimalString DecimalPos Lqa.
From stdpp Require Import base decidable option list strings gmap.

Local Open Scope string_scope.
Local Open Scope list_scope.
Local Open Scope Z_scope.

(* ===================================================================== *)
(** ** JavaScript string helpers *)
(* ===================================================================== *)

Module Js.

(** [String.prototype.startsWith]. *)
Fixpoint startsWith (s p : string) : bool :=
  match p, s with
  | EmptyString, _ => true
  | String c p', String d s' => if Ascii.eqb c d then startsWith s' p' else false
  | String _ _, EmptyString => false
  end.

(** [String.prototype.includes]. *)
Fixpoint includes (s p : string) : bool :=
  startsWith s p ||
  match s with
  | EmptyString => false
  | String _ s' => includes s' p
  end.

(** [String.prototype.endsWith]. *)
Definition endsWith (s p : string) : bool :=
  let n := String.length s in
  let m := String.length p in
  (m <=? n)%nat && String.eqb (substring (n - m) m s) p.

(** White space as [trim] and [parseInt] see it: the code points
    U+0009 to U+000D, U+0020, U+00A0, U+1680, U+2000 to U+200A, U+2028,
    U+2029, U+202F, U+205F, U+3000 and U+FEFF.  [isWhite] is the ASCII
    part; [isWhite2] and [isWhite3] recognise the two and three bytes of
    the others. *)
Definition isWhite (c : ascii) : bool :=
  let n := nat_of_ascii c in
  ((9 <=? n) && (n <=? 13))%nat || (n =? 32)%nat.

Definition isWhite2 (c d : ascii) : bool :=
  ((nat_of_ascii c =? 194) && (nat_of_ascii d =? 160))%nat.        (* U+00A0 *)

Definition isWhite3 (c d e : ascii) : bool :=
  let '(c, d, e) := (nat_of_ascii c, nat_of_ascii d, nat_of_ascii e) in
  ((c =? 225) && (d =? 154) && (e =? 128)                          (* U+1680 *)
   || (c =? 226) && (d =? 128)
      && ((128 <=? e) && (e <=? 138)                               (* U+2000-200A *)
          || (e =? 168) || (e =? 169) || (e =? 175))               (* U+2028, 2029, 202F *)
   || (c =? 226) && (d =? 129) && (e =? 159)                       (* U+205F *)
   || (c =? 227) && (d =? 128) && (e =? 128)                       (* U+3000 *)
   || (c =? 239) && (d =? 187) && (e =? 191))%nat.                 (* U+FEFF *)

(** The string without its leading white space. *)
Fixpoint skipWhite (s : string) : string :=
  match s with
  | String c s1 =>
      if isWhite c then skipWhite s1
      else
        match s1 with
        | String d s2 =>
            if isWhite2 c d then skipWhite s2
            else
              match s2 with
              | String e s3 => if isWhite3 c d e then skipWhite s3 else s
              | EmptyString => s
              end
        | EmptyString => s
        end
  | EmptyString => s
  end.

(** The string consists of white space only. *)
Definition allWhite (s : string) : bool := String.eqb (skipWhite s) "".

(** [String(arg).trim() !== ''] *)
Definition trim_nonempty (s : string) : bool := negb (allWhite s).

Definition lower (c : ascii) : ascii :=
  let n := nat_of_ascii c in
  if ((65 <=? n) && (n <=? 90))%nat then ascii_of_nat (n + 32) else c.

Fixpoint lowercase (s : string) : string :=
  match s with
  | EmptyString => EmptyString
  | String c s' => String (lower c) (lowercase s')
  end.

(** The value of a digit in radix 10 or 16, [None] when [c] is no digit
    of that radix. *)
Definition digitVal (radix : Z) (c : ascii) : option Z :=
  let n := Z.of_nat (nat_of_ascii c) in
  let v := if (48 <=? n) && (n <=? 57) then Some (n - 48)
           else if (97 <=? n) && (n <=? 102) then Some (n - 87)
           else if (65 <=? n) && (n <=? 70) then Some (n - 55)
           else None in
  match v with
  | Some d => if d <? radix then Some d else None
  | None => None
  end.

(** The longest prefix of digits: its value and whether it is non-empty. *)
Fixpoint digitsPrefix (radix : Z) (s : string) (acc : Z) (seen : bool)
  : Z * bool :=
  match s with
  | String c s' =>
      match digitVal radix c with
      | Some d => digitsPrefix radix s' (acc * radix + d) true
      | None => (acc, seen)
      end
  | EmptyString => (acc, seen)
  end.

(** The integer [parseInt(s)] reads, before it is made a Number: leading
    white space, an optional sign, an optional [0x] or [0X] prefix
    selecting radix 16, then the longest run of digits.  [None]: there is
    no digit. *)
Definition mathInt (s : string) : option Z :=
  let s1 := skipWhite s in
  let '(sign, s2) :=
    match s1 with
    | String "-" r => (-1, r)
    | String "+" r => (1, r)
    | _ => (1, s1)
    end in
  let '(radix, s3) :=
    match s2 with
    | String "0" (String "x" r) => (16, r)
    | String "0" (String "X" r) => (16, r)
    | _ => (10, s2)
    end in
  match digitsPrefix radix s3 0 false with
  | (v, true) => Some (sign * v)
  | (_, false) => None
  end.

(** A Number whose value, when finite, is an integer. *)
Inductive number :=
| NaN
| Num (z : Z)
| Infinity (negative : bool).

(** The integer with a significand of 53 bits nearest to [z], ties to the
    even significand (the rounding of IEEE 754 binary64).  Integers up to
    2^53 in magnitude are their own nearest. *)
Definition roundEven (z : Z) : Z :=
  let m := Z.abs z in
  let e := Z.log2 m - 52 in
  if e <=? 0 then z
  else
    let q := m / 2 ^ e in
    let r := m mod 2 ^ e in
    let half := 2 ^ (e - 1) in
    let q' := if (half <? r) || ((r =? half) && Z.odd q) then q + 1 else q in
    Z.sgn z * (q' * 2 ^ e).

(** The Number for an integer: what rounds to 2^1024 or beyond is an
    infinity. *)
Definition ofInteger (z : Z) : number :=
  let r := roundEven z in
  if 2 ^ 1024 <=? Z.abs r then Infinity (z <? 0) else Num r.

(** [parseInt(s)] without a radix argument. *)
Definition parseInt (s : string) : number :=
  match mathInt s with
  | Some z => ofInteger z
  | None => NaN
  end.

(** [x || 0] for a Number: [NaN] and [0] are falsy. *)
Definition or0 (x : number) : number :=
  match x with
  | NaN => Num 0
  | _ => x
  end.

(** [x - y] *)
Definition minus (x y : number) : number :=
  match x, y with
  | NaN, _ | _, NaN => NaN
  | Num a, Num b => ofInteger (a - b)
  | Infinity s, Num _ => Infinity s
  | Num _, Infinity s => Infinity (negb s)
  | Infinity s, Infinity s' => if Bool.eqb s s' then NaN else Infinity s
  end.

(** What [sort] makes of the Number its comparator returns: [NaN] counts
    as 0, and only the sign is read. *)
Definition sortValue (v : number) : Q :=
  match v with
  | NaN => 0%Q
  | Num z => inject_Z z
  | Infinity negative => if negative then (-1)%Q else 1%Q
  end.

(** [x <= y] *)
Definition leb (x y : number) : bool :=
  match x, y with
  | NaN, _ | _, NaN => false
  | Infinity true, _ => true
  | _, Infinity false => true
  | Infinity false, _ => false
  | _, Infinity true => false
  | Num a, Num b => a <=? b
  end.

(** The same Number (unlike [===], also for [NaN]). *)
Definition same (x y : number) : bool :=
  match x, y with
  | NaN, NaN => true
  | Num a, Num b => a =? b
  | Infinity s, Infinity s' => Bool.eqb s s'
  | _, _ => false
  end.

(** The decimal digits of an integer, with its sign. *)
Definition digits (z : Z) : string := NilZero.string_of_int (Z.to_int z).

Definition numDigits (m : Z) : Z := Z.of_nat (String.length (digits m)).

(** The decimal with the fewest significant digits that still rounds to
    the Number [x], and among those the one nearest to [x]: [k] counts the
    significant digits tried, [d] is the number of digits of [x]. *)
Fixpoint shortestFrom (fuel : nat) (k : Z) (x d : Z) : Z :=
  match fuel with
  | O => x
  | S fuel' =>
      let p := 10 ^ Z.max 0 (d - k) in
      let v1 := x / p * p in
      let v2 := v1 + p in
      let ok1 := roundEven v1 =? x in
      let ok2 := roundEven v2 =? x in
      if ok1 && ok2 then (if x - v1 <=? v2 - x then v1 else v2)
      else if ok1 then v1
      else if ok2 then v2
      else shortestFrom fuel' (k + 1) x d
  end.

Definition shortest (x : Z) : Z := shortestFrom 17 1 x (numDigits x).

Fixpoint stripZeros (fuel : nat) (v : Z) : Z :=
  match fuel with
  | O => v
  | S fuel' =>
      if (v mod 10 =? 0) && negb (v =? 0) then stripZeros fuel' (v / 10) else v
  end.

(** The exponent form [d.ddde+n] of a positive integer. *)
Definition exponential (v : Z) : string :=
  let n := numDigits v in
  let s := digits (stripZeros (Z.to_nat n) v) in
  match s with
  | String c EmptyString => s +:+ "e+" +:+ digits (n - 1)
  | String c rest => String c ("." +:+ rest) +:+ "e+" +:+ digits (n - 1)
  | EmptyString => s
  end.

(** Template-literal rendering of an integer Number (of the Number
    nearest to [z]): every digit up to 2^53; beyond, the shortest decimal
    that reads back as the same Number, in exponent form from 10^21 on. *)
Definition showZ (z : Z) : string :=
  let m := Z.abs z in
  if m <=? 2 ^ 53 then digits z
  else
    let x := roundEven m in
    let sign := if z <? 0 then "-" else "" in
    if 2 ^ 1024 <=? x then sign +:+ "Infinity"
    else
      let v := shortest x in
      sign +:+ (if numDigits v <=? 21 then digits v else exponential v).

(** [Math.floor(a / b)] for integer Numbers [a] and [b > 0] (with a
    quotient in the normal range): the quotient is rounded to the nearest
    Number (significand of 53 bits, ties to even) before the floor is
    taken. *)
Definition floorDivide (a b : Z) : Z :=
  if a =? 0 then 0
  else
    let m := Z.abs a in
    let l := Z.log2 m - Z.log2 b in
    let ge := if 0 <=? l then b * 2 ^ l <=? m else b <=? m * 2 ^ (- l) in
    let E := if ge then l else l - 1 in       (* 2^E <= m / b < 2^(E+1) *)
    let e := E - 52 in
    let N := if e <? 0 then m * 2 ^ (- e) else m in
    let D := if e <? 0 then b else b * 2 ^ e in
    let q := N / D in
    let r := N mod D in
    let q' := if (D <? 2 * r) || ((2 * r =? D) && Z.odd q) then q + 1 else q in
    if e <? 0 then (Z.sgn a * q') / 2 ^ (- e) else Z.sgn a * q' * 2 ^ e.

(** A string operand of [||] or [&&]: absent and empty strings are falsy. *)
Definition truthy (o : option string) : bool :=
  match o with
  | Some s => negb (String.eqb s "")
  | None => false
  end.

(** [o || d] on strings. *)
Definition orStr (o : option string) (d : string) : string :=
  match o with
  | Some s => if String.eqb s "" then d else s
  | None => d
  end.

(** [Math.round(n / d)] for an integer Number [n] and [d] a power of two
    (the quotient is then exact): the nearest integer, halves rounded
    up. *)
Definition round_div (n d : Z) : Z := (2 * n + d) / (2 * d).

(** [Array.prototype.sort(cmp)]: a stable sort; [a] stays before [b]
    unless [cmp a b > 0].  Written as an insertion from the right, so an
    element is placed before the first later element it need not follow.
    [cmp] gives the value [sort] reads of the comparator's result. *)
Section Sort.
Context {A : Type} (cmp : A -> A -> Q).

Fixpoint sort_insert (x : A) (l : list A) : list A :=
  match l with
  | [] => [x]
  | y :: l' => if Qle_bool (cmp x y) 0 then x :: y :: l'
               else y :: sort_insert x l'
  end.

Fixpoint Array_sort (l : list A) : list A :=
  match l with
  | [] => []
  | x :: l' => sort_insert x (Array_sort l')
  end.
End Sort.

(** [s.replace(/\\/g, '/')] *)
Fixpoint slashes (s : string) : string :=
  match s with
  | EmptyString => EmptyString
  | String c s' => String (if Ascii.eqb c "\" then "/"%char else c) (slashes s')
  end.

Definition isDigit (c : ascii) : bool :=
  let n := nat_of_ascii c in ((48 <=? n) && (n <=? 57))%nat.

(** The longest run of decimal digits at the head of [s] (most significant
    first) and what follows it. *)
Fixpoint digitRun (s : string) : list Z * string :=
  match s with
  | String c s' =>
      if isDigit c
      then let '(ds, r) := digitRun s' in (Z.of_nat (nat_of_ascii c) - 48 :: ds, r)
      else ([], s)
  | EmptyString => ([], s)
  end.

Definition digitsValue (ds : list Z) : Z := fold_left (fun acc d => acc * 10 + d) ds 0.

(** A match of [(\d+(?:\.\d+)?)%] starting exactly at the head of [s]:
    the exact value of the decimal in the captured group, which
    [parseFloat] reads (and rounds to the nearest Number). *)
Definition percentAt (s : string) : option Q :=
  match digitRun s with
  | ([], _) => None
  | (ds, r) =>
      let whole := inject_Z (digitsValue ds) in
      let plain := match r with
                   | String "%" _ => Some whole
                   | _ => None
                   end in
      match r with
      | String "." r' =>
          match digitRun r' with
          | (d :: fs, String "%" _) =>
              Some (Qmake (digitsValue (ds ++ d :: fs))
                          (Pos.pow 10 (Pos.of_nat (List.length (d :: fs)))))
          | _ => plain
          end
      | _ => plain
      end
  end.

(** [text.match(/(\d+(?:\.\d+)?)%/)]: the leftmost match. *)
Fixpoint matchPercent (text : string) : option Q :=
  match percentAt text with
  | Some q => Some q
  | None =>
      match text with
      | String _ text' => matchPercent text'
      | EmptyString => None
      end
  end.

(** [/^https?:\/\//i.test(s)] *)
Definition isHttpUrl (s : string) : bool :=
  let l := lowercase s in
  startsWith l "http://" || startsWith l "https://".

End Js.


(* ===================================================================== *)
(** ** The Format Translator ([/api/info], lines 94-127) *)
(* ===================================================================== *)

Module Info.

(** One element of the Extractor's [formats] array, with the fields the
    translator reads. *)
Record RawFormat := {
  vcodec : option string;
  acodec : option string;
  format_note : option string;
  height : option Z;
  ext : option string;
  filesize : option Z;
  filesize_approx : option Z;
  tbr : option Q;
  format_id : option string
}.

Record VideoFormat := {
  resolution : string;
  codec : string;
  container : option string;
  sizeMB : Z;
  bitrate : Q;
  itag : option string;
  hasAudio : bool
}.

Record AudioFormat := {
  a_itag : option string;
  a_bitrate : Q;
  a_container : option string
}.

(** [c !== 'none'] *)
Definition not_none (c : option string) : bool :=
  match c with
  | Some s => negb (String.eqb s "none")
  | None => true
  end.

(** A numeric operand of [if (..)] or [||]: absent and [0] are falsy. *)
Definition truthyZ (o : option Z) : bool :=
  match o with
  | Some z => negb (z =? 0)
  | None => false
  end.

(** [f.tbr || 0] *)
Definition tbr_or0 (o : option Q) : Q :=
  match o with
  | Some q => if Qeq_bool q 0 then 0%Q else q
  | None => 0%Q
  end.

Definition is_video (f : RawFormat) : bool := not_none (vcodec f).

Definition is_audio (f : RawFormat) : bool :=
  not_none (acodec f) && negb (not_none (vcodec f)).

(** [[f.vcodec, f.acodec].filter(Boolean).join('+')] *)
Definition codec_label (f : RawFormat) : string :=
  match Js.truthy (vcodec f), Js.truthy (acodec f) with
  | true, true => default "" (vcodec f) +:+ "+" +:+ default "" (acodec f)
  | true, false => default "" (vcodec f)
  | false, true => default "" (acodec f)
  | false, false => ""
  end.

(** The callback of [.map] on the video side (lines 96-113). *)
Definition to_video (f : RawFormat) : VideoFormat :=
  let sizeMB :=
    if truthyZ (filesize f)
    then Js.round_div (default 0 (filesize f)) (1024 * 1024)
    else if truthyZ (filesize_approx f)
    then Js.round_div (default 0 (filesize_approx f)) (1024 * 1024)
    else 0 in
  {| resolution :=
       if Js.truthy (format_note f) then default "" (format_note f)
       else if truthyZ (height f) then Js.showZ (default 0 (height f)) +:+ "p"
       else "Unknown";
     codec := codec_label f;
     container := ext f;
     sizeMB := sizeMB;
     bitrate := tbr_or0 (tbr f);
     itag := format_id f;
     hasAudio := not_none (acodec f) |}.

(** The callback of [.map] on the audio side (lines 122-126). *)
Definition to_audio (f : RawFormat) : AudioFormat :=
  {| a_itag := format_id f;
     a_bitrate := tbr_or0 (tbr f);
     a_container := ext f |}.

(** [parseInt(a.resolution) || 0] *)
Definition resKey (a : VideoFormat) : Js.number := Js.or0 (Js.parseInt (resolution a)).

(** The comparator of line 114: [bRes - aRes]. *)
Definition cmp_video (a b : VideoFormat) : Js.number := Js.minus (resKey b) (resKey a).

(** The comparator of line 127: [b.bitrate - a.bitrate]. *)
Definition cmp_audio (a b : AudioFormat) : Q := (a_bitrate b - a_bitrate a)%Q.

(** [info.formats || []]: [None] is a missing, [null] or otherwise falsy
    [formats] field. *)
Definition formats_or_empty (formats : option (list RawFormat)) : list RawFormat :=
  default [] formats.

Definition videoFormats (formats : option (list RawFormat)) : list VideoFormat :=
  Js.Array_sort (fun a b => Js.sortValue (cmp_video a b))
    (map to_video (List.filter is_video (formats_or_empty formats))).

Definition audioFormats (formats : option (list RawFormat)) : list AudioFormat :=
  Js.Array_sort cmp_audio (map to_audio (List.filter is_audio (formats_or_empty formats))).

(** The entries that end up in neither list. *)
Definition is_neither (f : RawFormat) : bool := negb (is_video f) && negb (is_audio f).

(** The label of an entry has no leading number [parseInt] can read. *)
Definition unparseable (a : VideoFormat) : bool :=
  match Js.parseInt (resolution a) with
  | Js.NaN => true
  | _ => false
  end.

(** Reading of "entries without a parseable number sort last": once an
    unparseable label has been seen, only unparseable labels follow. *)
Fixpoint unparseable_last (l : list VideoFormat) : bool :=
  match l with
  | [] => true
  | a :: l' => if unparseable a then forallb unparseable l' else unparseable_last l'
  end.

End Info.

Definition raw0 : Info.RawFormat :=
  {| Info.vcodec := None; Info.acodec := None; Info.format_note := None;
     Info.height := None; Info.ext := None; Info.filesize := None;
     Info.filesize_approx := None; Info.tbr := None; Info.format_id := None |}.

(** The example of the specification, section 8. *)
Definition spec_example_formats : list Info.RawFormat :=
  [ {| Info.vcodec := Some "vp9"; Info.acodec := Some "opus";
       Info.format_note := None; Info.height := Some 1080; Info.ext := None;
       Info.filesize := Some 52428800; Info.filesize_approx := None;
       Info.tbr := None; Info.format_id := Some "248" |};
    {| Info.vcodec := Some "none"; Info.acodec := Some "opus";
       Info.format_note := None; Info.height := None; Info.ext := Some "webm";
       Info.filesize := None; Info.filesize_approx := None;
       Info.tbr := Some 160%Q; Info.format_id := Some "251" |} ].



(* ===================================================================== *)
(** ** The runtime: platform, effects, oracle, and the monad of handlers *)
(* ===================================================================== *)

(** What Node's [path] and [os] modules and [__dirname] provide. *)
Class Platform := {
  __dirname : string;
  os_platform : string;
  path_join : string -> string -> string;
  path_basename : string -> string;
  path_dirname : string -> string
}.

(** A progress event, as published on [progressEmitter]. *)
Inductive progress :=
| Percent (p : Q)                                  (* { progress } *)
| Status (s : string)                              (* { status } *)
| StatusPercent (s : string) (p : Q)               (* { status, progress } *)
| Failure (error : string) (details : option string) (* { error [, details] } *)
| Complete (file : string).                        (* { complete: true, file } *)

(** What the server does to the outside world, file operations apart
    (those act on the file system of the state). *)
Inductive effect :=
| Spawn (cmd : string) (args : list string)
| Emit (e : progress)
| SetTimeout (ms : Z)          (* the kill timer of an attempt is armed *)
| ClearTimeout
| Kill                         (* proc.kill() *)
| Sleep (ms : Z)               (* await new Promise(r => setTimeout(r, ms)) *)
| HttpGet (url dest : string).

(** How a computation ends when it does not return: an exception that a
    [try]/[catch] around it receives ([Thrown], also a rejected promise
    that is awaited), or one that no [catch] of the handler can receive
    because it is raised in an event callback outside every promise
    ([Uncaught]: Node terminates the process).  [OutOfFuel] marks a loop
    cut short by the model, never by the server. *)
Inductive exn :=
| Thrown (message : string)
| Uncaught (message : string)
| OutOfFuel.

(** The file system: path to content. *)
Abbreviation files := (gmap string string).

Definition M (A : Type) : Type := files -> (A + exn) * files * list effect.

Definition ret {A} (a : A) : M A := fun fs => (inl a, fs, []).

Definition bind {A B} (m : M A) (k : A -> M B) : M B :=
  fun fs =>
    match m fs with
    | (inl a, fs1, l1) => let '(r, fs2, l2) := k a fs1 in (r, fs2, l1 ++ l2)
    | (inr e, fs1, l1) => (inr e, fs1, l1)
    end.

Notation "'let*' x ':=' m 'in' k" := (bind m (fun x => k))
  (at level 10, x name, m at level 100, k at level 200).
Notation "m ';;;' k" := (bind m (fun _ => k))
  (at level 100, k at level 200, right associativity).

Definition throw {A} (message : string) : M A := fun fs => (inr (Thrown message), fs, []).
Definition crash {A} (message : string) : M A := fun fs => (inr (Uncaught message), fs, []).
Definition diverge {A} : M A := fun fs => (inr OutOfFuel, fs, []).

(** [try { m } catch (err) { h err.message }] *)
Definition try_catch {A} (m : M A) (h : string -> M A) : M A :=
  fun fs =>
    match m fs with
    | (inr (Thrown message), fs1, l1) =>
        let '(r, fs2, l2) := h message fs1 in (r, fs2, l1 ++ l2)
    | other => other
    end.

Definition perform (e : effect) : M unit := fun fs => (inl tt, fs, [e]).
Definition emit (e : progress) : M unit := perform (Emit e).

(** [fs.existsSync] *)
Definition existsSync (p : string) : M bool :=
  fun fs => (inl (bool_decide (is_Some (fs !! p))), fs, []).

(** A file appears or is replaced (by a subprocess or a download). *)
Definition writeFile (p content : string) : M unit :=
  fun fs => (inl tt, <[p := content]> fs, []).

(** [fs.renameSync]: throws when the source does not exist. *)
Definition renameSync (src dst : string) : M unit :=
  fun fs =>
    match fs !! src with
    | Some content => (inl tt, <[dst := content]> (delete src fs), [])
    | None => (inr (Thrown "ENOENT: no such file or directory, rename"), fs, [])
    end.

(** [fs.unlinkSync]: throws when the file does not exist. *)
Definition unlinkSync (p : string) : M unit :=
  fun fs =>
    match fs !! p with
    | Some _ => (inl tt, delete p fs, [])
    | None => (inr (Thrown "ENOENT: no such file or directory, unlink"), fs, [])
    end.

(** [fs.readdirSync(dir)]: the names of the files directly in [dir]. *)
Definition readdirSync `{Platform} (dir : string) : M (list string) :=
  fun fs =>
    (inl (map path_basename
            (List.filter (fun p => String.eqb (path_dirname p) dir)
                    (map fst (map_to_list fs)))),
     fs, []).

(** [xs.forEach(f)] *)
Fixpoint forEach {A} (f : A -> M unit) (xs : list A) : M unit :=
  match xs with
  | [] => ret tt
  | x :: xs' => f x ;;; forEach f xs'
  end.

(** The three parts of what a computation yields. *)
Definition result_of {A} (x : (A + exn) * files * list effect) : A + exn := fst (fst x).
Definition files_of {A} (x : (A + exn) * files * list effect) : files := snd (fst x).
Definition trace_of {A} (x : (A + exn) * files * list effect) : list effect := snd x.

(* ===================================================================== *)
(** ** Data of the two handlers and their oracles *)
(* ===================================================================== *)

(** The second argument of [embedMetadata]. *)
Record Metadata := {
  title : option string;
  artist : option string;
  thumbnail : option string
}.

(** What [downloadToFile] meets (lines 183-186), when it comes to an
    end. *)
Inductive fetched :=
| GetFailed (message : string)            (* axios.get rejects, nothing written *)
| PipeFailed (partial message : string)   (* the stream breaks, a partial file stays *)
| Fetched (content : string).

(** What the Transcoder does once spawned: the spawn itself fails, or it
    exits with a code ([None] when killed by a signal), having printed
    [stderr] and possibly written its output file.  (No timer guards the
    Transcoder; a run that never exits is not described.) *)
Inductive transcoder_run :=
| FfSpawnFailed (message : string)
| FfExit (code : option Z) (stderr : string) (output : option string).

Record embed_oracle := {
  thumb_uuid : string;            (* uuidv4() of line 191 *)
  thumb_fetch : fetched;
  transcoder : transcoder_run
}.

(** What a running Extractor download does before it ends. *)
Inductive chunk :=
| Stdout (text : string)
| Stderr (text : string)
| Wrote (path content : string).   (* the subprocess creates or replaces a file *)

(** The callbacks that can settle the promise of an attempt. *)
Inductive ending :=
| Exit (code : option Z)           (* 'close' *)
| SpawnFailed (message : string)   (* 'error' *)
| TimedOut.                        (* the kill timer fires *)

Inductive callback :=
| Output (c : chunk)
| Ending (e : ending).

(** One spawned Extractor download: its output, the first callback that
    settles the promise, and the callbacks that still arrive once the
    promise is rejected (output and the 'close' after an 'error' or after
    the kill). *)
Record attempt := {
  chunks : list chunk;
  ending_of : ending;
  late : list callback
}.

(** The Extractor's JSON document as [JSON.parse] and the three property
    reads of lines 469-474 see it. *)
Inductive parsed :=
| ParseError (message : string)
| Parsed (title uploader thumbnail : option string).

(** The run of the Extractor in [fetchVideoInfo], when it comes to an
    end (no timer guards it). *)
Inductive dump_run :=
| DumpSpawnFailed (message : string)
| DumpExit (code : option Z) (stdout : parsed) (stderr : string).

(** Everything the outside world contributes to one [/api/download]. *)
Record oracle := {
  uuid : string;                 (* uuidv4() of line 268 *)
  attempts : nat -> attempt;     (* the n-th Extractor download spawned *)
  refetch : dump_run;
  embedding : embed_oracle
}.

Record Request := {
  url : option string;
  videoItag : option string;
  audioItag : option string
}.

Inductive body :=
| ErrorBody (error : string) (details : option string)
| SuccessBody (file : string).       (* { success: true, file } *)

Record Response := { status : Z; body_of : body }.

(** The state of the promise of [attemptDownload]. *)
Inductive promise :=
| Pending
| Resolved
| Rejected (message : string).

(** [resolve()] and [reject(..)] act on a pending promise only. *)
Definition settle (p new : promise) : promise :=
  match p with
  | Pending => new
  | _ => p
  end.

(** How one turn of the retry loop ends. *)
Inductive flow :=
| Next (retryCount : nat) (downloadSuccess : bool)
| Return (r : Response).

(** [`${code}`] for an exit code. *)
Definition showCode (code : option Z) : string :=
  match code with
  | Some z => Js.showZ z
  | None => "null"
  end.

(** [code === 0] *)
Definition isZero (code : option Z) : bool :=
  match code with
  | Some z => z =? 0
  | None => false
  end.

(* ===================================================================== *)
(** ** The server *)
(* ===================================================================== *)

Section Server.
Context `{Platform}.

Definition downloadsDir : string := path_join __dirname "downloads".
Definition ffmpegPath : string := "C:\ffmpeg\bin\ffmpeg.exe".

(** *** embedMetadata (lines 178-261) *)

(** [downloadToFile] (lines 183-186). *)
Definition downloadToFile (o : embed_oracle) (url dest : string) : M unit :=
  perform (HttpGet url dest) ;;;
  match thumb_fetch o with
  | GetFailed message => throw message
  | PipeFailed partial message => writeFile dest partial ;;; throw message
  | Fetched content => writeFile dest content
  end.

(** Where a remote thumbnail is downloaded to (line 191). *)
Definition thumbPathOf (o : embed_oracle) : string :=
  path_join downloadsDir ("thumb_" +:+ thumb_uuid o +:+ ".jpg").

(** Lines 190-201: the value of [thumbPath] when the arguments are built. *)
Definition resolveThumbnail (o : embed_oracle) (metadata : option Metadata)
  : M (option string) :=
  match metadata with
  | Some md =>
      let t := default "" (thumbnail md) in
      if Js.truthy (thumbnail md) && Js.isHttpUrl t then
        let thumbPath := thumbPathOf o in
        try_catch (downloadToFile o t thumbPath ;;; ret (Some thumbPath))
                  (fun _ => ret None)
      else if Js.truthy (thumbnail md) then
        let* there := existsSync t in
        ret (if there then Some t else None)
      else ret None
  | None => ret None
  end.

(** Lines 204-229.  Reading [metadata.title] of a missing [metadata]
    throws. *)
Definition ffmpegArgs (filePath tempPath : string) (thumbPath : option string)
  (metadata : option Metadata) : M (list string) :=
  match metadata with
  | None => throw "Cannot read properties of undefined (reading 'title')"
  | Some md =>
      let tags :=
        [ "-metadata"; "title=" +:+ Js.orStr (title md) "";
          "-metadata"; "artist=" +:+ Js.orStr (artist md) "";
          "-metadata"; "comment=Downloaded with ULTRA Downloader" ] in
      if Js.truthy thumbPath then
        ret ([ "-i"; filePath; "-i"; default "" thumbPath;
               "-map"; "0"; "-map"; "1"; "-c"; "copy" ]
             ++ tags ++ [ "-disposition:v:1"; "attached_pic"; tempPath ])
      else
        ret ([ "-i"; filePath; "-c"; "copy" ] ++ tags ++ [ tempPath ])
  end.

(** Lines 232-255: the Transcoder run and what follows its exit. *)
Definition runFfmpeg (o : embed_oracle) (filePath tempPath : string)
  (thumbPath : option string) (args : list string) : M unit :=
  perform (Spawn ffmpegPath args) ;;;
  match transcoder o with
  | FfSpawnFailed message => throw message
  | FfExit code stderr output =>
      match output with
      | Some content => writeFile tempPath content
      | None => ret tt
      end ;;;
      if isZero code then
        try_catch
          (renameSync tempPath filePath ;;;
           if Js.truthy thumbPath && Js.includes (default "" thumbPath) "thumb_" then
             let* there := existsSync (default "" thumbPath) in
             if there then unlinkSync (default "" thumbPath) else ret tt
           else ret tt)
          (fun _ => ret tt)
      else
        throw ("FFmpeg exited with code " +:+ showCode code
               +:+ ". Stderr: " +:+ stderr)
  end.

Definition tempPathOf (filePath : string) : string :=
  path_join downloadsDir ("meta_temp_" +:+ path_basename filePath).

Definition embedMetadata (o : embed_oracle) (filePath : string)
  (metadata : option Metadata) : M unit :=
  let tempPath := tempPathOf filePath in
  try_catch
    (let* thumbPath := resolveThumbnail o metadata in
     let* args := ffmpegArgs filePath tempPath thumbPath metadata in
     runFfmpeg o filePath tempPath thumbPath args)
    (fun message => throw message).

(** *** fetchVideoInfo (lines 441-480) *)

(** Only a 'close' listener is registered on the subprocess: an 'error'
    event has no listener, and an event emitter raises an unheard 'error'
    as an exception in the callback that emitted it. *)
Definition fetchVideoInfo (run : dump_run) (url : string) : M Metadata :=
  perform (Spawn "yt-dlp"
             [ "--dump-json"; "--no-warnings"; "--ignore-errors";
               "--no-check-certificates"; url ]) ;;;
  match run with
  | DumpSpawnFailed message => crash message
  | DumpExit code stdout stderr =>
      if negb (isZero code) then
        throw (Js.orStr (Some stderr) ("exit code " +:+ showCode code))
      else
        match stdout with
        | ParseError message => throw message
        | Parsed t u th =>
            ret {| title := Some (Js.orStr t "Untitled Video");
                   artist := Some (Js.orStr u "Unknown");
                   thumbnail := Some (Js.orStr th "") |}
        end
  end.

(** *** The download handler (lines 264-438) *)

Definition ffmpegDir : string :=
  if String.eqb os_platform "win32"
  then Js.slashes (path_dirname ffmpegPath)
  else path_dirname ffmpegPath.

Definition userAgent : string :=
  "Mozilla/5.0 (Windows NT 10.0; Win64; x64) AppleWebKit/537.36 (KHTML, like Gecko) Chrome/125.0.0.0 Safari/537.36".

(** Lines 277-301. *)
Definition filteredArgs (baseOutput url : string) (videoItag audioItag : option string)
  : list string :=
  let args :=
    [ "--no-warnings"; "--ignore-errors"; "--no-check-certificates";
      "--console-title"; "--newline"; "--progress";
      "--ffmpeg-location"; ffmpegDir;
      "--user-agent"; userAgent;
      "--no-playlist";
      "-o"; baseOutput +:+ ".%(ext)s";
      url ] in
  let args :=
    args ++
    (if Js.truthy videoItag && Js.truthy audioItag
     then [ "-f"; default "" videoItag +:+ "+" +:+ default "" audioItag ]
     else if Js.truthy videoItag
     then [ "-f"; default "" videoItag ]
     else [ "-f"; "bestvideo+bestaudio" ]) in
  let args :=
    args ++ [ "--merge-output-format"; "mp4";
              "--postprocessor-args"; "-c:v copy -c:a aac -b:a 192k" ] in
  List.filter Js.trim_nonempty args.

(** The 'data' listeners of lines 319-347. *)
Definition onChunk (c : chunk) : M unit :=
  match c with
  | Stdout text =>
      match Js.matchPercent text with
      | Some progress => emit (Percent progress)
      | None => ret tt
      end ;;;
      (if Js.includes text "Destination:" || Js.includes text "[download] Destination:"
       then emit (Status "Downloading...") else ret tt) ;;;
      (if Js.includes text "100%"
       then emit (StatusPercent "Finalizing..." 100) else ret tt)
  | Stderr text =>
      match Js.matchPercent text with
      | Some progress => emit (Percent progress)
      | None => ret tt
      end
  | Wrote path content => writeFile path content
  end.

(** The kill timer (lines 349-353) and the 'close' and 'error' listeners
    (lines 355-382).  The state is the promise and whether the timer is
    still armed. *)
Definition onEnding (finalFilePath : string) (st : promise * bool) (e : ending)
  : M (promise * bool) :=
  let '(p, armed) := st in
  match e with
  | TimedOut =>
      if armed then
        perform Kill ;;;
        emit (Failure "Download timed out" None) ;;;
        ret (settle p (Rejected "Download timed out"), false)
      else ret st
  | Exit code =>
      perform ClearTimeout ;;;
      if negb (isZero code) then
        emit (Failure "Download failed" (Some ("Exit code: " +:+ showCode code))) ;;;
        ret (settle p (Rejected ("Download failed with code " +:+ showCode code)), false)
      else
        let* there := existsSync finalFilePath in
        if negb there then
          emit (Failure "File not created" None) ;;;
          ret (settle p (Rejected "File not created"), false)
        else ret (settle p Resolved, false)
  | SpawnFailed message =>
      perform ClearTimeout ;;;
      emit (Failure "Failed to start download" None) ;;;
      ret (settle p (Rejected message), false)
  end.

Definition onCallback (finalFilePath : string) (st : promise * bool) (c : callback)
  : M (promise * bool) :=
  match c with
  | Output c => onChunk c ;;; ret st
  | Ending e => onEnding finalFilePath st e
  end.

Fixpoint runCallbacks (finalFilePath : string) (st : promise * bool)
  (cs : list callback) : M (promise * bool) :=
  match cs with
  | [] => ret st
  | c :: cs' =>
      let* st' := onCallback finalFilePath st c in
      runCallbacks finalFilePath st' cs'
  end.

(** [await attemptDownload()] (lines 310-384): the subprocess is spawned,
    the kill timer armed, and the callbacks run up to the one that settles
    the promise; the handler then resumes, returning when the promise is
    resolved and throwing the reason when it is rejected. *)
Definition attemptDownload (args : list string) (finalFilePath : string) (a : attempt)
  : M unit :=
  perform (Spawn "yt-dlp" args) ;;;
  perform (SetTimeout (1000 * 60 * 15)) ;;;
  let* st := runCallbacks finalFilePath (Pending, true)
               (map Output (chunks a) ++ [Ending (ending_of a)]) in
  match fst st with
  | Resolved => ret tt
  | Rejected message => throw message
  | Pending => diverge
  end.

(** The callbacks of the subprocess that arrive after its promise was
    rejected with [message]: the same listeners run on the settled promise,
    with the timer fired or cleared.  They run when the handler has given
    up control, that is after it has resumed from the rejection and come to
    its next pause or to its end.  (After a resolution none is due: only a
    'close' resolves, and it is the last event of a subprocess.) *)
Definition lateCallbacks (finalFilePath message : string) (a : attempt) : M unit :=
  runCallbacks finalFilePath (Rejected message, false) (late a) ;;; ret tt.

Definition maxRetries : nat := 3.

(** The progress event of lines 393-396. *)
Definition retryEvent (retryCount : nat) : progress :=
  StatusPercent ("Retrying download... (" +:+ Js.showZ (Z.of_nat retryCount) +:+ "/"
                 +:+ Js.showZ (Z.of_nat maxRetries) +:+ ")") 0.

(** The body of the [while] loop (lines 387-403).  The late callbacks of
    a failed attempt are taken to arrive while the handler is in the pause
    of line 399, or, after the third failure, when it has answered in
    line 401. *)
Definition retryBody (args : list string) (finalFilePath : string)
  (retryCount : nat) (a : attempt) : M flow :=
  try_catch
    (attemptDownload args finalFilePath a ;;; ret (Next retryCount true))
    (fun message =>
       let retryCount := S retryCount in
       emit (retryEvent retryCount) ;;;
       if (retryCount <? maxRetries)%nat then
         perform (Sleep 3000) ;;;
         lateCallbacks finalFilePath message a ;;;
         ret (Next retryCount false)
       else
         lateCallbacks finalFilePath message a ;;;
         ret (Return {| status := 500;
                        body_of := ErrorBody "Download failed after retries"
                                             (Some message) |})).

(** [while (retryCount < maxRetries && !downloadSuccess)] (line 386).  The
    result is the response sent from inside the loop, if any. *)
Fixpoint retryLoop (fuel : nat) (args : list string) (finalFilePath : string)
  (retryCount : nat) (downloadSuccess : bool) (atts : nat -> attempt)
  : M (option Response) :=
  if (retryCount <? maxRetries)%nat && negb downloadSuccess then
    match fuel with
    | O => diverge
    | S fuel' =>
        let* fl := retryBody args finalFilePath retryCount (atts O) in
        match fl with
        | Next retryCount' downloadSuccess' =>
            retryLoop fuel' args finalFilePath retryCount' downloadSuccess'
                      (fun n => atts (S n))
        | Return r => ret (Some r)
        end
    end
  else ret None.

(** Lines 406-422. *)
Definition embedStep (o : oracle) (url finalFilePath : string) : M unit :=
  try_catch
    (let* videoInfo := fetchVideoInfo (refetch o) url in
     embedMetadata (embedding o) finalFilePath
       (Some {| title := title videoInfo;
                artist := artist videoInfo;
                thumbnail := thumbnail videoInfo |}))
    (fun _ => ret tt).

(** Lines 425-434. *)
Definition cleanup (id : string) : M unit :=
  let* names := readdirSync downloadsDir in
  forEach
    (fun file =>
       if Js.startsWith file id && negb (Js.endsWith file ".mp4") then
         try_catch (unlinkSync (path_join downloadsDir file)) (fun _ => ret tt)
       else ret tt)
    names.

(** The handler of [POST /api/download]. *)
Definition download (req : Request) (o : oracle) : M Response :=
  if negb (Js.truthy (url req)) then
    ret {| status := 400; body_of := ErrorBody "Missing URL" None |}
  else
    let url := default "" (url req) in
    let id := uuid o in
    let baseOutput := path_join downloadsDir id in
    let finalFilePath := baseOutput +:+ ".mp4" in
    let args := filteredArgs baseOutput url (videoItag req) (audioItag req) in
    let* sent := retryLoop maxRetries args finalFilePath 0 false (attempts o) in
    match sent with
    | Some r => ret r
    | None =>
        embedStep o url finalFilePath ;;;
        cleanup id ;;;
        emit (Complete (id +:+ ".mp4")) ;;;
        ret {| status := 200; body_of := SuccessBody (id +:+ ".mp4") |}
    end.

End Server.

(* ===================================================================== *)
(** ** Vocabulary of the properties *)
(* ===================================================================== *)

(** The two classes of the translator's contract, in its words. *)
Definition video_entry (f : Info.RawFormat) : Prop :=
  Info.vcodec f <> Some "none".
Definition audio_entry (f : Info.RawFormat) : Prop :=
  Info.vcodec f = Some "none" /\ Info.acodec f <> Some "none".

(** Descending order of the parsed resolution. *)
Definition res_desc (a b : Info.VideoFormat) : Prop :=
  Js.leb (Info.resKey b) (Info.resKey a) = true.

(** The entries whose parsed resolution is [k]. *)
Definition same_key (k : Js.number) (a : Info.VideoFormat) : bool :=
  Js.same (Info.resKey a) k.


(** The file a callback of a subprocess leaves behind. *)
Definition writesOf (fs : files) (c : callback) : files :=
  match c with
  | Output (Wrote path content) => <[ path := content ]> fs
  | _ => fs
  end.

Definition afterCallbacks (cs : list callback) (fs : files) : files :=
  fold_left writesOf cs fs.

(** The callbacks of an attempt, in the order they run. *)
Definition callbacksOf (a : attempt) : list callback :=
  map Output (chunks a) ++ Ending (ending_of a) :: late a.

(** The file system when the promise of an attempt settles. *)
Definition afterSettle (a : attempt) (fs : files) : files :=
  afterCallbacks (map Output (chunks a)) fs.

(** The file system a failed attempt leaves, its late callbacks
    included. *)
Definition afterAttempt (a : attempt) (fs : files) : files :=
  afterCallbacks (callbacksOf a) fs.

(** The four ways an attempt fails, with the reason it reports: a non-zero
    exit, a zero exit without the expected output file, a spawn failure,
    the 15-minute timeout.  [None]: the attempt succeeds. *)
Definition failure (finalFilePath : string) (a : attempt) (fs : files) : option string :=
  match ending_of a with
  | Exit code =>
      if negb (isZero code)
      then Some ("Download failed with code " +:+ showCode code)
      else if bool_decide
                (is_Some (afterCallbacks (map Output (chunks a)) fs !! finalFilePath))
      then None
      else Some "File not created"
  | SpawnFailed message => Some message
  | TimedOut => Some "Download timed out"
  end.

(** What an ending settles a pending promise to, given the files present
    when its callback runs. *)
Definition verdict (finalFilePath : string) (e : ending) (fs : files) : promise :=
  match e with
  | Exit code =>
      if negb (isZero code)
      then Rejected ("Download failed with code " +:+ showCode code)
      else if bool_decide (is_Some (fs !! finalFilePath)) then Resolved
      else Rejected "File not created"
  | SpawnFailed message => Rejected message
  | TimedOut => Rejected "Download timed out"
  end.

(** The promise and the timer after an ending: a timer that is no longer
    armed does not fire. *)
Definition endState (finalFilePath : string) (st : promise * bool) (e : ending)
  (fs : files) : promise * bool :=
  match e, snd st with
  | TimedOut, false => st
  | _, _ => (settle (fst st) (verdict finalFilePath e fs), false)
  end.

Fixpoint settledBy (finalFilePath : string) (st : promise * bool)
  (cs : list callback) (fs : files) : promise * bool :=
  match cs with
  | [] => st
  | Output c :: cs' => settledBy finalFilePath st cs' (writesOf fs (Output c))
  | Ending e :: cs' => settledBy finalFilePath (endState finalFilePath st e fs) cs' fs
  end.

(** The next attempts, once the first has been made. *)
Definition later (atts : nat -> attempt) : nat -> attempt := fun n => atts (S n).

(** A retry announcement. *)
Definition isRetry (e : effect) : bool :=
  match e with
  | Emit (StatusPercent s _) => Js.startsWith s "Retrying download..."
  | _ => false
  end.

Definition isComplete (e : effect) : bool :=
  match e with
  | Emit (Complete _) => true
  | _ => false
  end.

(** An Extractor download is spawned. *)
Definition isAttempt (e : effect) : bool :=
  match e with
  | Spawn cmd args => String.eqb cmd "yt-dlp" && negb (bool_decide (head args = Some "--dump-json"))
  | _ => false
  end.

Definition isSleep (e : effect) : bool :=
  match e with
  | Sleep _ => true
  | _ => false
  end.

(** What the callbacks of a subprocess may do: publish a progress event
    that is neither a retry announcement nor a completion, clear the kill
    timer, kill the subprocess. *)
Definition fromCallback (e : effect) : bool :=
  match e with
  | Emit (Complete _) => false
  | Emit _ => negb (isRetry e)
  | ClearTimeout | Kill => true
  | _ => false
  end.

(** What the metadata step may do: fetch a thumbnail, spawn the Extractor
    in its JSON mode, spawn the Transcoder. *)
Definition fromEmbed (e : effect) : bool :=
  match e with
  | Spawn _ _ => negb (isAttempt e)
  | HttpGet _ _ => true
  | _ => false
  end.

(** A run that returns or throws what a [catch] can receive. *)
Definition mild {A} (x : (A + exn) * files * list effect) : Prop :=
  match result_of x with
  | inl _ | inr (Thrown _) => True
  | inr (Uncaught _) | inr OutOfFuel => False
  end.

(** A computation all of whose runs are mild and have only effects
    in [P]. *)
Definition tame {A} (P : effect -> bool) (m : M A) : Prop :=
  forall fs, mild (m fs) /\ Forall (fun e => P e = true) (trace_of (m fs)).

Definition count (p : effect -> bool) (t : list effect) : nat :=
  List.length (List.filter p t).


(** The announcement of retry number [n]: the status text carries the
    count, the progress is reset to 0. *)
Definition announcement (n : nat) : effect :=
  Emit (StatusPercent ("Retrying download... (" +:+ Js.showZ (Z.of_nat n) +:+ "/3)") 0).

(** The retry policy as a state machine over the attempts: attempt
    number [n] (1, 2, 3) either succeeds, which ends the loop without a
    response; or fails before the third attempt, which is announced with
    its number as soon as the failure is reported, followed by a pause of 3
    seconds, during which the late callbacks of the failed attempt run, and
    by attempt [n + 1]; or fails as the third attempt, which is announced
    and answered with status 500 before the late callbacks run. *)
Section Policy.
Context `{Platform}.
Variables (args : list string) (finalFilePath : string).

(** What an attempt does until its promise settles, and what its late
    callbacks do. *)
Definition attemptTrace (a : attempt) (fs : files) : list effect :=
  trace_of (attemptDownload args finalFilePath a fs).

Definition lateTrace (message : string) (a : attempt) (fs : files) : list effect :=
  trace_of (lateCallbacks finalFilePath message a (afterSettle a fs)).

Definition gaveUp (message : string) : Response :=
  {| status := 500;
     body_of := ErrorBody "Download failed after retries" (Some message) |}.

Definition succeeded (id : string) : Response :=
  {| status := 200; body_of := SuccessBody (id +:+ ".mp4") |}.

Inductive Schedule :
  nat -> (nat -> attempt) -> files -> list effect -> files -> option Response -> Prop :=
| Succeeded n atts fs :
    failure finalFilePath (atts O) fs = None ->
    (n <= 3)%nat ->
    Schedule n atts fs (attemptTrace (atts O) fs) (afterSettle (atts O) fs) None
| Retrying n atts fs message t fs' sent :
    failure finalFilePath (atts O) fs = Some message ->
    (n < 3)%nat ->
    Schedule (S n) (later atts) (afterAttempt (atts O) fs) t fs' sent ->
    Schedule n atts fs
      (attemptTrace (atts O) fs
       ++ announcement n :: Sleep 3000 :: lateTrace message (atts O) fs ++ t)
      fs' sent
| Failed atts fs message :
    failure finalFilePath (atts O) fs = Some message ->
    Schedule 3 atts fs
      (attemptTrace (atts O) fs ++ announcement 3 :: lateTrace message (atts O) fs)
      (afterAttempt (atts O) fs) (Some (gaveUp message)).

(** All of the first [n] attempts fail. *)
Fixpoint allFail (n : nat) (atts : nat -> attempt) (fs : files) : bool :=
  match n with
  | O => true
  | S n' =>
      match failure finalFilePath (atts O) fs with
      | Some _ => allFail n' (later atts) (afterAttempt (atts O) fs)
      | None => false
      end
  end.

End Policy.

(* ===================================================================== *)
(** ** A concrete platform and concrete runs, for evaluation *)
(* ===================================================================== *)

(** The path up to the last [/] and the name after it; [None] without
    a [/]. *)
Fixpoint cutLast (s : string) : option (string * string) :=
  match s with
  | EmptyString => None
  | String c s' =>
      match cutLast s' with
      | Some (d, b) => Some (String c d, b)
      | None => if Ascii.eqb c "/" then Some (EmptyString, s') else None
      end
  end.

(** POSIX paths, for operands that need no normalisation (no trailing
    separator, no [.] or [..] segment). *)
Definition posix : Platform := {|
  __dirname := "/srv/app";
  os_platform := "linux";
  path_join := fun a b => a +:+ "/" +:+ b;
  path_basename := fun p =>
    match cutLast p with
    | Some (_, b) => b
    | None => p
    end;
  path_dirname := fun p =>
    match cutLast p with
    | Some (EmptyString, _) => "/"
    | Some (d, _) => d
    | None => "."
    end
|}.

Definition req0 : Request :=
  {| url := Some "https://example.com/watch?v=1";
     videoItag := Some "248"; audioItag := Some "251" |}.

Definition final0 : string := "/srv/app/downloads/abc.mp4".

(** An attempt that prints progress, leaves the merged file and exits 0. *)
Definition att_ok : attempt :=
  {| chunks := [ Stdout "[download] Destination: abc.f248.webm";
                 Stdout "[download]  42.5% of 10MiB";
                 Wrote "/srv/app/downloads/abc.f248.webm" "part";
                 Wrote final0 "video" ];
     ending_of := Exit (Some 0);
     late := [] |}.

(** Failed attempts of the four kinds. *)
Definition att_exit1 : attempt :=
  {| chunks := [ Stderr "ERROR: unable to download" ];
     ending_of := Exit (Some 1); late := [] |}.
Definition att_spawn : attempt :=
  {| chunks := []; ending_of := SpawnFailed "spawn yt-dlp ENOENT";
     late := [ Ending (Exit (Some (-2))) ] |}.
Definition att_timeout : attempt :=
  {| chunks := [ Stdout "[download]   1.0% of 10MiB" ]; ending_of := TimedOut;
     late := [ Ending (Exit None) ] |}.
Definition att_nofile : attempt :=
  {| chunks := []; ending_of := Exit (Some 0); late := [] |}.

Definition embed_ok : embed_oracle :=
  {| thumb_uuid := "t1"; thumb_fetch := Fetched "jpeg";
     transcoder := FfExit (Some 0) "" (Some "tagged video") |}.

Definition dump_ok : dump_run :=
  DumpExit (Some 0)
    (Parsed (Some "A title") (Some "An uploader") (Some "https://img.example.com/t.jpg"))
    "".

(** The world in which attempt [n] behaves as the [n]-th element of [l]
    (and as [att_ok] beyond). *)
Definition world (l : list attempt) (d : dump_run) (e : embed_oracle) : oracle :=
  {| uuid := "abc";
     attempts := fun n => nth n l att_ok;
     refetch := d;
     embedding := e |}.

(** A format list with a label that parses to a negative number. *)
Definition cex_formats : list Info.RawFormat :=
  [ {| Info.vcodec := Some "avc1"; Info.acodec := Some "none";
       Info.format_note := Some "Default"; Info.height := None;
       Info.ext := Some "mp4"; Info.filesize := None;
       Info.filesize_approx := None; Info.tbr := None;
       Info.format_id := Some "18" |};
    {| Info.vcodec := Some "avc1"; Info.acodec := Some "none";
       Info.format_note := Some "-5"; Info.height := None;
       Info.ext := Some "mp4"; Info.filesize := None;
       Info.filesize_approx := None; Info.tbr := None;
       Info.format_id := Some "19" |} ].

(** Two labels beyond 2^53 that read as the same Number. *)
Definition noted (note : string) : Info.RawFormat :=
  {| Info.vcodec := Some "avc1"; Info.acodec := Some "none";
     Info.format_note := Some note; Info.height := None;
     Info.ext := Some "mp4"; Info.filesize := None;
     Info.filesize_approx := None; Info.tbr := None;
     Info.format_id := None |}.

Definition tie_formats : list Info.RawFormat :=
  [ noted "9007199254740992"; noted "9007199254740993"; noted "5" ].

(** A cover image that sits in the user's own folder. *)
Definition local_cover : string := "/home/user/thumb_cover.jpg".

Definition md_local : Metadata :=
  {| title := Some "A title"; artist := Some "An uploader";
     thumbnail := Some local_cover |}.

Definition fs_local : files :=
  <[ final0 := "video" ]> (<[ local_cover := "cover" ]> ∅).

Definition md_missing : Metadata :=
  {| title := Some "A title"; artist := None; thumbnail := Some "cover.png" |}.

Definition embed_fail : embed_oracle :=
  {| thumb_uuid := "t1"; thumb_fetch := Fetched "jpeg";
     transcoder := FfExit (Some 1) "Invalid data found when processing input" None |}.

(** Worlds for the four kinds of run. *)
Definition w_ok : oracle := world [att_ok] dump_ok embed_ok.
Definition w_retry : oracle := world [att_exit1; att_ok] dump_ok embed_ok.
Definition w_exhausted : oracle :=
  world [att_timeout; att_spawn; att_nofile] dump_ok embed_ok.

(** The Extractor cannot be spawned for the metadata re-fetch. *)
Definition w_refetch_spawn : oracle :=
  world [att_ok] (DumpSpawnFailed "spawn yt-dlp EAGAIN") embed_ok.

Definition fs_final : files := <[ final0 := "video" ]> ∅.

(** Oracles and inputs for the embedder's other paths. *)
Definition md_remote : Metadata :=
  {| title := Some "A title"; artist := Some "An uploader";
     thumbnail := Some "https://img.example.com/t.jpg" |}.

Definition embed_getfail : embed_oracle :=
  {| thumb_uuid := "t1"; thumb_fetch := GetFailed "timeout of 15000ms exceeded";
     transcoder := FfExit (Some 0) "" (Some "tagged video") |}.

Definition embed_nooutput : embed_oracle :=
  {| thumb_uuid := "t1"; thumb_fetch := Fetched "jpeg";
     transcoder := FfExit (Some 0) "" None |}.

Definition embed_nospawn : embed_oracle :=
  {| thumb_uuid := "t1"; thumb_fetch := Fetched "jpeg";
     transcoder := FfSpawnFailed "spawn C:\ffmpeg\bin\ffmpeg.exe ENOENT" |}.

(* ===================================================================== *)
(** ** Helpers of the info response (lines 482-487) *)
(* ===================================================================== *)

(** [s.padStart(2, '0')] *)
Definition padStart2 (s : string) : string :=
  match String.length s with
  | O => "00"
  | 1%nat => "0" +:+ s
  | _ => s
  end.

(** [formatDuration(seconds)] for a whole number of seconds:
    [Math.floor(seconds / 60)] rounds the quotient to a Number and then
    down, [seconds % 60] is exact and has the sign of [seconds]. *)
Definition formatDuration (seconds : Z) : string :=
  let mins := Js.floorDivide seconds 60 in
  let secs := Z.rem seconds 60 in
  Js.showZ mins +:+ ":" +:+ padStart2 (Js.showZ secs).

(** The character of a decimal digit. *)
Definition digitChar (d : Z) : ascii := ascii_of_nat (48 + Z.to_nat d).

Definition req_nourl : Request :=
  {| url := Some ""; videoItag := Some "248"; audioItag := None |}.

(* ===================================================================== *)
(** ** The progress stream ([GET /api/download/progress], lines 158-175) *)
(* ===================================================================== *)

(** A chunk written to a response: [event: progress] or the [data:] line
    with the JSON text of an event (the text itself is not modelled). *)
Inductive sse :=
| EventLine
| DataLine (e : progress).

(** The emitter and the open responses.  Connections are numbered in the
    order they are accepted; each registers its own [progressHandler]. *)
Record bus := {
  listeners : list nat;            (* handlers on 'progress', oldest first *)
  written : gmap nat (list sse);   (* what each response has been sent *)
  accepted : nat                   (* connections accepted so far *)
}.

Inductive action :=
| Connect                          (* a client requests the stream *)
| Disconnect (c : nat)             (* 'close' on the request of connection c *)
| Publish (e : progress).          (* progressEmitter.emit('progress', e) *)

(** [progressHandler] of connection [c] (lines 164-167). *)
Definition progressHandler (c : nat) (e : progress) (w : gmap nat (list sse))
  : gmap nat (list sse) :=
  alter (fun sent => sent ++ [EventLine; DataLine e]) c w.

(** [emit]: the handlers run in the order they were registered. *)
Definition publish (e : progress) (b : bus) : bus :=
  {| listeners := listeners b;
     written := fold_left (fun w c => progressHandler c e w) (listeners b) (written b);
     accepted := accepted b |}.

(** The route handler (lines 158-169): headers are flushed, the handler
    is registered. *)
Definition connect (b : bus) : bus :=
  {| listeners := listeners b ++ [accepted b];
     written := <[ accepted b := [] ]> (written b);
     accepted := S (accepted b) |}.

(** The 'close' listener (lines 171-174): [off] removes the handler of
    this connection, which is registered at most once. *)
Definition disconnect (c : nat) (b : bus) : bus :=
  {| listeners := List.filter (fun l => negb (l =? c)%nat) (listeners b);
     written := written b;
     accepted := accepted b |}.

Definition act (b : bus) (a : action) : bus :=
  match a with
  | Connect => connect b
  | Disconnect c => disconnect c b
  | Publish e => publish e b
  end.

Definition bus0 : bus := {| listeners := []; written := ∅; accepted := O |}.

Definition serve (acts : list action) : bus := fold_left act acts bus0.

(** The events a client is due: those published after connection [c] was
    accepted and before its request closed.  [n] counts the connections
    accepted so far, [listening] says whether [c] is subscribed. *)
Fixpoint due (c n : nat) (listening : bool) (acts : list action) : list progress :=
  match acts with
  | [] => []
  | Connect :: rest => due c (S n) (listening || (n =? c)%nat) rest
  | Disconnect c' :: rest => due c n (listening && negb (c' =? c)%nat) rest
  | Publish e :: rest => (if listening then [e] else []) ++ due c n listening rest
  end.

Definition connects (acts : list action) : nat :=
  List.length (List.filter (fun a => match a with Connect => true | _ => false end) acts).

(** The bus is in step with the view of connection [c]: its handler is
    registered exactly while [listening], and its response exists exactly
    when it has been accepted. *)
Definition in_step (c : nat) (listening : bool) (b : bus) : Prop :=
  NoDup (listeners b) /\
  (forall l, l ∈ listeners b -> (l < accepted b)%nat) /\
  (c ∈ listeners b <-> listening = true) /\
  (is_Some (written b !! c) <-> (c < accepted b)%nat).

(** A run of the progress stream, for evaluation. *)
Definition acts0 : list action :=
  [ Publish (Status "Downloading..."); Connect; Publish (Percent 50);
    Connect; Publish (Percent 100); Disconnect 0; Publish (Complete "abc.mp4") ].

(** A cover image whose path does not contain [thumb_]. *)
Definition plain_cover : string := "/home/user/cover.jpg".

Definition md_plain : Metadata :=
  {| title := Some "A title"; artist := Some "An uploader";
     thumbnail := Some plain_cover |}.

Definition fs_plain : files :=
  <[ final0 := "video" ]> (<[ plain_cover := "cover" ]> ∅).

Definition isFailure (e : effect) : bool :=
  match e with
  | Emit (Failure _ _) => true
  | _ => false
  end.

(** The answer is the success answer. *)
Definition isSuccess (r : Response + exn) : bool :=
  match r with
  | inl {| status := _; body_of := SuccessBody _ |} => true
  | _ => false
  end.

Example parseInt_1080p : Js.parseInt "1080p" = Js.Num 1080.
Proof. reflexivity. Qed.
Example parseInt_word : Js.parseInt "medium" = Js.NaN.
Proof. reflexivity. Qed.
Example parseInt_hex : Js.parseInt " 0x1F" = Js.Num 31.
Proof. reflexivity. Qed.
Example parseInt_neg : Js.parseInt "-5" = Js.Num (-5).
Proof. reflexivity. Qed.
(** Beyond 2^53 not every integer is a Number: two labels can read as the
    same one. *)
Example parseInt_2_53 :
  Js.parseInt "9007199254740993" = Js.Num 9007199254740992 /\
  Js.parseInt "9007199254740992" = Js.Num 9007199254740992.
Proof. split; vm_compute; reflexivity. Qed.
(** A no-break space (U+00A0) is white space, a zero-width space (U+200B)
    is not. *)
Example white_space_unicode :
  Js.parseInt (String "194" (String "160" "720p")) = Js.Num 720 /\
  Js.trim_nonempty (String "194" (String "160" " ")) = false /\
  Js.trim_nonempty (String "226" (String "128" (String "139" ""))) = true.
Proof. repeat split. Qed.
Example showZ_1080 : Js.showZ 1080 = "1080".
Proof. reflexivity. Qed.
Example showZ_large :
  Js.showZ (2 ^ 60) = "1152921504606847000" /\
  Js.showZ (10 ^ 21) = "1e+21" /\
  Js.showZ (- 2 ^ 70) = "-1.1805916207174113e+21".
Proof. repeat split; vm_compute; reflexivity. Qed.
Example round_div_50 : Js.round_div 52428800 (1024 * 1024) = 50.
Proof. reflexivity. Qed.
Example spec_example_video :
  Info.videoFormats (Some spec_example_formats) =
  [ {| Info.resolution := "1080p"; Info.codec := "vp9+opus";
       Info.container := None; Info.sizeMB := 50; Info.bitrate := 0%Q;
       Info.itag := Some "248"; Info.hasAudio := true |} ].
Proof. reflexivity. Qed.
Example spec_example_audio :
  Info.audioFormats (Some spec_example_formats) =
  [ {| Info.a_itag := Some "251"; Info.a_bitrate := 160%Q;
       Info.a_container := Some "webm" |} ].
Proof. reflexivity. Qed.

Example matchPercent_1 : Js.matchPercent "[download]  42.5% of 10MiB" = Some (425 # 10)%Q.
Proof. reflexivity. Qed.
Example matchPercent_2 : Js.matchPercent "1.2.3%" = Some (23 # 10)%Q.
Proof. reflexivity. Qed.
Example matchPercent_3 : Js.matchPercent "12a 100% x" = Some 100%Q.
Proof. reflexivity. Qed.
Example matchPercent_4 : Js.matchPercent "5 % 3." = None.
Proof. reflexivity. Qed.
Example isHttpUrl_1 : Js.isHttpUrl "HTTPS://x" = true /\ Js.isHttpUrl "ftp://x" = false.
Proof. split; reflexivity. Qed.


(* ===================================================================== *)
(** ** Facts about [Array_sort] *)
(* ===================================================================== *)

Section SortFacts.
Context {A : Type} (cmp : A -> A -> Q).

Lemma sort_insert_perm x l : Permutation (Js.sort_insert cmp x l) (x :: l).
Proof.
  induction l as [|y l IH]; simpl; [reflexivity|].
  destruct (Qle_bool (cmp x y) 0); [reflexivity|].
  rewrite IH. apply perm_swap.
Qed.

Lemma Array_sort_perm l : Permutation (Js.Array_sort cmp l) l.
Proof.
  induction l as [|x l IH]; simpl; [reflexivity|].
  rewrite sort_insert_perm. now constructor.
Qed.

Lemma Array_sort_length l : List.length (Js.Array_sort cmp l) = List.length l.
Proof. apply Permutation_length, Array_sort_perm. Qed.

(** Comparators that decide a total preorder [R]: [cmp a b <= 0]
    exactly when [a] may stay before [b]. *)
Context (R : A -> A -> Prop).
Hypothesis cmp_R : forall a b, Qle_bool (cmp a b) 0 = true <-> R a b.
Hypothesis R_total : forall a b, R a b \/ R b a.
Hypothesis R_trans : forall a b c, R a b -> R b c -> R a c.

Lemma sort_insert_sorted_R x l :
  StronglySorted R l -> StronglySorted R (Js.sort_insert cmp x l).
Proof.
  induction 1 as [|y l Hs IH Hy]; simpl.
  - repeat constructor.
  - destruct (Qle_bool (cmp x y) 0) eqn:E.
    + apply cmp_R in E. constructor; [now constructor|].
      constructor; [exact E|].
      eapply List.Forall_impl; [|exact Hy]. intros z Hz. eapply R_trans; eauto.
    + assert (Ryx : R y x).
      { destruct (R_total x y) as [Hxy|Hyx]; [|exact Hyx].
        apply cmp_R in Hxy. congruence. }
      constructor; [exact IH|].
      eapply Permutation_Forall; [symmetry; apply sort_insert_perm|].
      constructor; assumption.
Qed.

Lemma Array_sort_sorted_R l : StronglySorted R (Js.Array_sort cmp l).
Proof.
  induction l; simpl; [constructor|]. now apply sort_insert_sorted_R.
Qed.

(** Stability: the elements of a class whose members are tied keep their
    order. *)
Context (P : A -> bool).
Hypothesis P_tied : forall a b, P a = true -> P b = true -> R a b.

Lemma sort_insert_stable x l :
  List.filter P (Js.sort_insert cmp x l) = List.filter P (x :: l).
Proof.
  induction l as [|y l IH]; [reflexivity|].
  simpl Js.sort_insert.
  destruct (Qle_bool (cmp x y) 0) eqn:E; [reflexivity|].
  change (List.filter P (y :: Js.sort_insert cmp x l))
    with (if P y then y :: List.filter P (Js.sort_insert cmp x l)
          else List.filter P (Js.sort_insert cmp x l)).
  rewrite IH. simpl.
  destruct (P x) eqn:Hx, (P y) eqn:Hy; try reflexivity.
  apply (P_tied _ _ Hx), cmp_R in Hy. congruence.
Qed.

Lemma Array_sort_stable l :
  List.filter P (Js.Array_sort cmp l) = List.filter P l.
Proof.
  induction l as [|x l IH]; [reflexivity|].
  simpl Js.Array_sort. rewrite sort_insert_stable. simpl. now rewrite IH.
Qed.
End SortFacts.

Lemma not_none_spec c : Info.not_none c = bool_decide (c <> Some "none").
Proof.
  unfold Info.not_none.
  case_bool_decide as Hc; destruct c as [s|]; try reflexivity;
    try (destruct (String.eqb_spec s "none"); simpl; try reflexivity);
    exfalso; naive_solver.
Qed.

Lemma is_video_spec f : Info.is_video f = bool_decide (video_entry f).
Proof. apply not_none_spec. Qed.

Lemma is_audio_spec f : Info.is_audio f = bool_decide (audio_entry f).
Proof.
  unfold Info.is_audio, audio_entry. rewrite !not_none_spec.
  repeat case_bool_decide; simpl; try reflexivity; tauto.
Qed.

Lemma filter_split_length {A} (p q : A -> bool) (l : list A) :
  (forall x, p x && q x = false) ->
  (List.length (List.filter p l) + List.length (List.filter q l)
   + List.length (List.filter (fun x => negb (p x) && negb (q x)) l)
   = List.length l)%nat.
Proof.
  intros Hpq. induction l as [|x l IH]; [reflexivity|].
  simpl. specialize (Hpq x).
  destruct (p x), (q x); simpl in *; try discriminate; lia.
Qed.

(** C5.  The Format Translator partitions the Extractor's format list: the
    video list consists of the translations of exactly the entries whose
    video codec is not "none", the audio list of the translations of
    exactly the entries whose video codec is "none" and whose audio codec
    is not "none"; the two classes are disjoint, so that with the entries
    in neither class every entry is accounted for once; and a missing
    format list yields two empty lists. *)
Theorem format_translator_partition (formats : option (list Info.RawFormat)) :
  let fs := default [] formats in
  Permutation (Info.videoFormats formats)
              (map Info.to_video (List.filter (fun f => bool_decide (video_entry f)) fs)) /\
  Permutation (Info.audioFormats formats)
              (map Info.to_audio (List.filter (fun f => bool_decide (audio_entry f)) fs)) /\
  (forall f, ~ (video_entry f /\ audio_entry f)) /\
  (List.length (Info.videoFormats formats) + List.length (Info.audioFormats formats)
   + List.length (List.filter Info.is_neither fs) = List.length fs)%nat /\
  Info.videoFormats None = [] /\ Info.audioFormats None = [].
Proof.
  intros fs. repeat split.
  - unfold Info.videoFormats. rewrite Array_sort_perm.
    unfold Info.formats_or_empty. fold fs.
    rewrite (List.filter_ext _ _ is_video_spec). reflexivity.
  - unfold Info.audioFormats. rewrite Array_sort_perm.
    unfold Info.formats_or_empty. fold fs.
    rewrite (List.filter_ext _ _ is_audio_spec). reflexivity.
  - unfold video_entry, audio_entry. tauto.
  - unfold Info.videoFormats, Info.audioFormats.
    rewrite !Array_sort_length, !length_map.
    apply filter_split_length.
    intros x. unfold Info.is_audio, Info.is_video.
    destruct (Info.not_none (Info.vcodec x)), (Info.not_none (Info.acodec x)); reflexivity.
Qed.

(** *** Numbers *)

Lemma roundEven_small z : Z.abs z < 2 ^ 53 -> Js.roundEven z = z.
Proof.
  intros Hz. unfold Js.roundEven.
  destruct (Z.leb_spec (Z.log2 (Z.abs z) - 52) 0) as [_|He]; [reflexivity|].
  exfalso.
  assert (Z.log2 (Z.abs z) < 53); [|lia].
  destruct (Z.eq_dec (Z.abs z) 0) as [E|Hne]; [rewrite E; cbn; lia|].
  apply Z.log2_lt_pow2; lia.
Qed.

Lemma roundEven_sgn z : Z.sgn (Js.roundEven z) = Z.sgn z.
Proof.
  unfold Js.roundEven.
  destruct (Z.leb_spec (Z.log2 (Z.abs z) - 52) 0) as [_|He]; [reflexivity|].
  set (m := Z.abs z) in *. set (e := Z.log2 m - 52) in *.
  assert (Hm : 0 < m).
  { destruct (Z.eq_dec m 0) as [E|]; [|lia].
    subst e. rewrite E in He. cbn in He. lia. }
  assert (Hp : 0 < 2 ^ e) by (apply Z.pow_pos_nonneg; lia).
  assert (Hq : 1 <= m / 2 ^ e).
  { apply Z.div_le_lower_bound; [exact Hp|].
    rewrite Z.mul_1_r.
    apply Z.le_trans with (2 ^ Z.log2 m); [apply Z.pow_le_mono_r; lia|].
    apply Z.log2_spec. exact Hm. }
  destruct ((2 ^ (e - 1) <? m mod 2 ^ e)
            || (m mod 2 ^ e =? 2 ^ (e - 1)) && Z.odd (m / 2 ^ e));
    (rewrite Z.sgn_mul, Z.sgn_sgn;
     rewrite (Z.sgn_pos (_ * 2 ^ e)) by nia; lia).
Qed.

(** Making a Number of an integer keeps its sign. *)
Lemma ofInteger_sign d :
  Qle_bool (Js.sortValue (Js.ofInteger d)) 0 = (d <=? 0).
Proof.
  unfold Js.ofInteger. pose proof (roundEven_sgn d) as Hs.
  destruct (Z.leb_spec (2 ^ 1024) (Z.abs (Js.roundEven d))) as [Hbig|_].
  - assert (0 < 2 ^ 1024) by (apply Z.pow_pos_nonneg; lia).
    simpl. destruct (Z.ltb_spec d 0), (Z.leb_spec d 0); try reflexivity; lia.
  - simpl. unfold Qle_bool. simpl. rewrite Z.mul_1_r.
    destruct (Z.leb_spec (Js.roundEven d) 0), (Z.leb_spec d 0); try reflexivity; lia.
Qed.

Lemma ofInteger_small z : Z.abs z < 2 ^ 53 -> Js.ofInteger z = Js.Num z.
Proof.
  intros Hz. unfold Js.ofInteger. rewrite (roundEven_small z Hz).
  destruct (Z.leb_spec (2 ^ 1024) (Z.abs z)) as [Hbig|]; [|reflexivity].
  exfalso. assert (2 ^ 53 < 2 ^ 1024) by (apply Z.pow_lt_mono_r; lia). lia.
Qed.

(** The comparator [x - y] decides [x <= y]. *)
Lemma minus_leb x y :
  x <> Js.NaN -> y <> Js.NaN ->
  Qle_bool (Js.sortValue (Js.minus x y)) 0 = Js.leb x y.
Proof.
  intros Hx Hy. destruct x as [|a|[]], y as [|b|[]]; try congruence; try reflexivity.
  simpl. rewrite ofInteger_sign.
  destruct (Z.leb_spec (a - b) 0), (Z.leb_spec a b); try reflexivity; lia.
Qed.

Lemma leb_total x y : x <> Js.NaN -> y <> Js.NaN -> Js.leb x y = true \/ Js.leb y x = true.
Proof.
  intros Hx Hy. destruct x as [|a|[]], y as [|b|[]]; try congruence; simpl; auto.
  destruct (Z.leb_spec a b), (Z.leb_spec b a); auto; lia.
Qed.

Lemma leb_trans x y z : Js.leb x y = true -> Js.leb y z = true -> Js.leb x z = true.
Proof.
  destruct x as [|a|[]], y as [|b|[]], z as [|c|[]]; simpl; try congruence.
  rewrite !Z.leb_le. lia.
Qed.

(** Reading back a rendered number. *)
Ltac digit_step :=
  simpl;
  match goal with
  | |- context [Z.of_nat (nat_of_ascii ?c) - 48] =>
      let v := eval vm_compute in (Z.of_nat (nat_of_ascii c) - 48) in
      change (Z.of_nat (nat_of_ascii c) - 48) with v
  end.

Lemma digitsPrefix_acc d : forall acc,
  Js.digitsPrefix 10 (NilEmpty.string_of_uint d +:+ "p") (Z.pos acc) true
  = (Z.pos (Pos.of_uint_acc d acc), true).
Proof.
  induction d; intros acc; [reflexivity|..];
    digit_step;
    match goal with
    | |- Js.digitsPrefix 10 _ ?z true = (Z.pos (Pos.of_uint_acc _ ?a), _) =>
        replace z with (Z.pos a) by lia
    end; apply IHd.
Qed.

Lemma digitsPrefix_uint d : forall seen,
  Js.digitsPrefix 10 (NilEmpty.string_of_uint d +:+ "p") 0 seen
  = (Z.of_N (Pos.of_uint d),
     match d with Decimal.Nil => seen | _ => true end).
Proof.
  induction d; intros seen; [reflexivity|..]; digit_step;
    [rewrite IHd; now destruct d|apply digitsPrefix_acc..].
Qed.

(** A digit or a sign is no white space, whatever follows it. *)
Lemma skipWhite_digit c s : Js.isDigit c = true -> Js.skipWhite (String c s) = String c s.
Proof.
  intros Hc.
  destruct c as [[] [] [] [] [] [] [] []]; try discriminate Hc;
    destruct s as [|d [|e s3]]; reflexivity.
Qed.

Lemma skipWhite_minus s : Js.skipWhite (String "-" s) = String "-" s.
Proof. destruct s as [|d [|e s3]]; reflexivity. Qed.

Lemma mathInt_digits c s v :
  Js.isDigit c = true ->
  match s with
  | String c2 _ => negb (Ascii.eqb c2 "x") && negb (Ascii.eqb c2 "X")
  | EmptyString => true
  end = true ->
  Js.digitsPrefix 10 (String c s) 0 false = (v, true) ->
  Js.mathInt (String c s) = Some v /\
  Js.mathInt (String "-" (String c s)) = Some (- v).
Proof.
  intros Hc Hs Hv.
  assert (G : Js.mathInt (String c s)
              = (let (v0, b) := Js.digitsPrefix 10 (String c s) 0 false in
                 if b then Some (1 * v0) else None) /\
              Js.mathInt (String "-" (String c s))
              = (let (v0, b) := Js.digitsPrefix 10 (String c s) 0 false in
                 if b then Some (-1 * v0) else None)).
  { clear Hv. unfold Js.mathInt.
    rewrite skipWhite_minus, (skipWhite_digit c s Hc).
    destruct c as [[] [] [] [] [] [] [] []]; try discriminate Hc; clear Hc;
      try (split; reflexivity).
    destruct s as [|c2 s]; [split; reflexivity|].
    destruct c2 as [[] [] [] [] [] [] [] []]; try discriminate Hs;
      split; reflexivity. }
  destruct G as [-> ->]. rewrite Hv. split; f_equal; lia.
Qed.

Lemma mathInt_uint d :
  d <> Decimal.Nil ->
  Js.mathInt (NilEmpty.string_of_uint d +:+ "p") = Some (Z.of_N (Pos.of_uint d)) /\
  Js.mathInt (String "-" (NilEmpty.string_of_uint d +:+ "p"))
  = Some (- Z.of_N (Pos.of_uint d)).
Proof.
  intros Hd.
  pose proof (digitsPrefix_uint d false) as E.
  assert (Ht : match d with Decimal.Nil => false | _ => true end = true)
    by (destruct d; congruence).
  rewrite Ht in E.
  destruct d as [|d|d|d|d|d|d|d|d|d|d]; try congruence;
    (apply mathInt_digits; [reflexivity|now destruct d|exact E]).
Qed.

Lemma mathInt_digits_p z : Js.mathInt (Js.digits z +:+ "p") = Some z.
Proof.
  unfold Js.digits. destruct z as [|p|p]; [reflexivity| |].
  - cbn [Z.to_int NilZero.string_of_int]. unfold NilZero.string_of_uint.
    pose proof (Unsigned.to_uint_nonnil p) as Hn.
    destruct (mathInt_uint _ Hn) as [E _].
    rewrite Unsigned.of_to in E.
    destruct (Pos.to_uint p); [congruence|exact E..].
  - cbn [Z.to_int NilZero.string_of_int]. unfold NilZero.string_of_uint.
    pose proof (Unsigned.to_uint_nonnil p) as Hn.
    destruct (mathInt_uint _ Hn) as [_ E].
    rewrite Unsigned.of_to in E.
    destruct (Pos.to_uint p); [congruence|exact E..].
Qed.

(** Up to 2^53 a number is rendered with all its digits. *)
Lemma showZ_digits z : Z.abs z < 2 ^ 53 -> Js.showZ z = Js.digits z.
Proof.
  intros Hz. unfold Js.showZ.
  destruct (Z.leb_spec (Z.abs z) (2 ^ 53)); [reflexivity|lia].
Qed.

Lemma parseInt_showZ z : Z.abs z < 2 ^ 53 -> Js.parseInt (Js.showZ z +:+ "p") = Js.Num z.
Proof.
  intros Hz. unfold Js.parseInt.
  now rewrite (showZ_digits z Hz), mathInt_digits_p, ofInteger_small.
Qed.

Lemma resKey_number a : Info.resKey a <> Js.NaN.
Proof. unfold Info.resKey. now destruct (Js.parseInt (Info.resolution a)). Qed.

Lemma cmp_video_leb a b :
  Qle_bool (Js.sortValue (Info.cmp_video a b)) 0 = true <-> res_desc a b.
Proof.
  unfold Info.cmp_video, res_desc.
  now rewrite minus_leb by apply resKey_number.
Qed.

Lemma res_desc_total a b : res_desc a b \/ res_desc b a.
Proof.
  unfold res_desc.
  destruct (leb_total (Info.resKey a) (Info.resKey b)); auto using resKey_number.
Qed.

Lemma res_desc_trans a b c : res_desc a b -> res_desc b c -> res_desc a c.
Proof. unfold res_desc. intros H1 H2. eapply leb_trans; eauto. Qed.

Lemma leb_refl x : x <> Js.NaN -> Js.leb x x = true.
Proof. destruct x as [|a|[]]; try congruence; intros _; simpl; auto. apply Z.leb_refl. Qed.

Lemma unparseable_key a : Info.unparseable a = true -> Info.resKey a = Js.Num 0.
Proof.
  unfold Info.unparseable, Info.resKey.
  now destruct (Js.parseInt (Info.resolution a)).
Qed.

Lemma same_eq x y : Js.same x y = true -> x = y.
Proof.
  destruct x as [|a|s], y as [|b|s']; simpl; try congruence.
  - intros E. apply Z.eqb_eq in E. congruence.
  - intros E. apply Bool.eqb_prop in E. congruence.
Qed.

(** C6, as stated, fails: a label that parses to a negative number sorts
    after a label without any number, so the entry without a parseable
    number is not last. *)
Lemma video_unparseable_not_last :
  map Info.resolution (Info.videoFormats (Some cex_formats)) = ["Default"; "-5"] /\
  Js.parseInt "Default" = Js.NaN /\ Js.parseInt "-5" = Js.Num (-5) /\
  Info.unparseable_last (Info.videoFormats (Some cex_formats)) = false.
Proof. repeat split. Qed.

Lemma StronglySorted_suffix {A} (R : A -> A -> Prop) l1 l2 :
  StronglySorted R (l1 ++ l2) -> StronglySorted R l2.
Proof.
  induction l1 as [|x l1 IH]; simpl; [tauto|].
  intros Hs. inversion Hs; subst. auto.
Qed.

(** C6, amended.  The VideoFormat list is sorted in descending order of
    the Number parsed from the resolution label (the label [<n>p] of a
    height [n] below 2^53 reads as [n]); a label without a parseable
    leading number counts as 0, so such an entry is followed only by
    entries whose number is 0 or negative (it sorts after every entry with
    a positive number), and these entries keep their original relative
    order, as do the entries of any one number. *)
Theorem video_formats_sorted (formats : option (list Info.RawFormat)) :
  let vs := Info.videoFormats formats in
  let unsorted := map Info.to_video (List.filter Info.is_video (default [] formats)) in
  StronglySorted res_desc vs /\
  (forall a, Info.unparseable a = true -> Info.resKey a = Js.Num 0) /\
  (forall l1 a l2, vs = l1 ++ a :: l2 -> Info.unparseable a = true ->
     Forall (fun b => Js.leb (Info.resKey b) (Js.Num 0) = true) l2) /\
  List.filter Info.unparseable vs = List.filter Info.unparseable unsorted /\
  (forall k, List.filter (same_key k) vs = List.filter (same_key k) unsorted) /\
  (forall a z, Z.abs z < 2 ^ 53 -> Info.resolution a = Js.digits z +:+ "p" ->
     Info.resKey a = Js.Num z).
Proof.
  intros vs unsorted.
  assert (Hs : StronglySorted res_desc vs)
    by apply (Array_sort_sorted_R _ res_desc cmp_video_leb res_desc_total res_desc_trans).
  repeat split.
  - exact Hs.
  - exact unparseable_key.
  - intros l1 a l2 E Ha. rewrite E in Hs.
    apply StronglySorted_suffix in Hs. inversion Hs as [|? ? _ Hall]; subst.
    unfold res_desc in Hall. rewrite (unparseable_key a Ha) in Hall. exact Hall.
  - apply (Array_sort_stable _ res_desc cmp_video_leb).
    intros a b Ha Hb. unfold res_desc. now rewrite !unparseable_key.
  - intros k. apply (Array_sort_stable _ res_desc cmp_video_leb).
    intros a b Ha Hb. unfold same_key in *.
    apply same_eq in Ha, Hb. unfold res_desc. rewrite Ha, Hb.
    apply leb_refl. rewrite <- Ha. apply resKey_number.
  - intros a z Hz Ha. unfold Info.resKey, Js.parseInt.
    now rewrite Ha, mathInt_digits_p, ofInteger_small.
Qed.

(** Labels that read as the same Number are tied and keep their order,
    whichever comes first. *)
Example video_formats_tie :
  map Info.resolution (Info.videoFormats (Some tie_formats))
  = [ "9007199254740992"; "9007199254740993"; "5" ] /\
  map Info.resolution (Info.videoFormats (Some (rev tie_formats)))
  = [ "9007199254740993"; "9007199254740992"; "5" ].
Proof. split; vm_compute; reflexivity. Qed.

(* ===================================================================== *)
(** ** Running computations *)
(* ===================================================================== *)

Lemma bind_inl {A B} (m : M A) (k : A -> M B) fs a fs1 l1 :
  m fs = (inl a, fs1, l1) ->
  bind m k fs = (result_of (k a fs1), files_of (k a fs1), l1 ++ trace_of (k a fs1)).
Proof.
  intros E. unfold bind. rewrite E. now destruct (k a fs1) as [[r fs2] l2].
Qed.

Lemma bind_run {A B} (m : M A) (k : A -> M B) fs a fs1 l1 r fs2 l2 :
  m fs = (inl a, fs1, l1) -> k a fs1 = (r, fs2, l2) ->
  bind m k fs = (r, fs2, l1 ++ l2).
Proof. intros E1 E2. unfold bind. now rewrite E1, E2. Qed.

Lemma bind_inr {A B} (m : M A) (k : A -> M B) fs e fs1 l1 :
  m fs = (inr e, fs1, l1) -> bind m k fs = (inr e, fs1, l1).
Proof. intros E. unfold bind. now rewrite E. Qed.

Lemma run_eta {A} (x : (A + exn) * files * list effect) :
  x = (result_of x, files_of x, trace_of x).
Proof. now destruct x as [[r f] t]. Qed.

Section AttemptFacts.
Context `{Platform}.

Lemma onChunk_run c (fs : files) :
  exists t, onChunk c fs = (inl tt, writesOf fs (Output c), t) /\
            Forall (fun e => fromCallback e = true) t.
Proof.
  destruct c as [text|text|path content]; simpl.
  - unfold bind, emit, perform, ret.
    destruct (Js.matchPercent text);
      destruct (Js.includes text "Destination:" || Js.includes text "[download] Destination:");
      destruct (Js.includes text "100%"); simpl;
      eexists; (split; [reflexivity|]); repeat constructor.
  - unfold emit, perform, ret.
    destruct (Js.matchPercent text); eexists; (split; [reflexivity|]); repeat constructor.
  - eexists; split; [reflexivity|constructor].
Qed.

Lemma onEnding_run final st e (fs : files) :
  exists t,
    onEnding final st e fs = (inl (endState final st e fs), fs, t) /\
    Forall (fun e => fromCallback e = true) t.
Proof.
  destruct st as [p armed]. destruct e as [code|message|]; simpl.
  - unfold bind, emit, perform, ret, existsSync, endState, verdict.
    destruct (isZero code); simpl.
    + destruct (bool_decide (is_Some (fs !! final))); simpl;
        eexists; (split; [reflexivity|]); repeat constructor.
    + eexists; (split; [reflexivity|]); repeat constructor.
  - unfold bind, emit, perform, ret.
    eexists; (split; [reflexivity|]); repeat constructor.
  - destruct armed.
    + unfold bind, emit, perform, ret.
      eexists; (split; [reflexivity|]); repeat constructor.
    + unfold ret. eexists; (split; [reflexivity|]); constructor.
Qed.

Lemma runCallbacks_run final cs : forall st (fs : files),
  exists t,
    runCallbacks final st cs fs
    = (inl (settledBy final st cs fs), afterCallbacks cs fs, t) /\
    Forall (fun e => fromCallback e = true) t.
Proof.
  induction cs as [|c cs IH]; intros st fs.
  - exists []. split; [reflexivity|constructor].
  - simpl runCallbacks. destruct c as [c|e].
    + destruct (onChunk_run c fs) as (t1 & E1 & Q1).
      destruct (IH st (writesOf fs (Output c))) as (t2 & E2 & Q2).
      exists (t1 ++ t2). split; [|now apply Forall_app].
      eapply bind_run; [|exact E2].
      unfold onCallback. rewrite <- (app_nil_r t1).
      eapply bind_run; [exact E1|reflexivity].
    + destruct (onEnding_run final st e fs) as (t1 & E1 & Q1).
      destruct (IH (endState final st e fs) fs) as (t2 & E2 & Q2).
      exists (t1 ++ t2). split; [|now apply Forall_app].
      eapply bind_run; [exact E1|exact E2].
Qed.

Lemma settledBy_keep final cs : forall st (fs : files),
  fst st <> Pending -> fst (settledBy final st cs fs) = fst st.
Proof.
  induction cs as [|[c|e] cs IH]; intros st fs Hp; simpl; auto.
  rewrite IH.
  - destruct st as [p armed]. unfold endState. simpl in *.
    destruct e, armed, p; simpl; congruence.
  - destruct st as [p armed]. unfold endState. simpl in *.
    destruct e as [code| |], armed, p; simpl; try congruence;
      destruct (isZero code); simpl; try congruence;
      destruct (bool_decide _); congruence.
Qed.

Lemma settledBy_chunks final cs rest : forall st (fs : files),
  settledBy final st (map Output cs ++ rest) fs
  = settledBy final st rest (afterCallbacks (map Output cs) fs).
Proof.
  induction cs as [|c cs IH]; intros st fs; simpl; auto.
Qed.

Lemma verdict_failure final a (fs : files) :
  verdict final (ending_of a) (afterCallbacks (map Output (chunks a)) fs)
  = match failure final a fs with
    | Some message => Rejected message
    | None => Resolved
    end.
Proof.
  unfold verdict, failure. destruct (ending_of a) as [code| |]; try reflexivity.
  destruct (isZero code); simpl; [|reflexivity].
  now destruct (bool_decide _).
Qed.

Lemma afterCallbacks_app cs1 cs2 (fs : files) :
  afterCallbacks (cs1 ++ cs2) fs = afterCallbacks cs2 (afterCallbacks cs1 fs).
Proof. unfold afterCallbacks. apply fold_left_app. Qed.

Lemma afterAttempt_late a (fs : files) :
  afterAttempt a fs = afterCallbacks (late a) (afterSettle a fs).
Proof. unfold afterAttempt, callbacksOf, afterSettle. now rewrite afterCallbacks_app. Qed.

Lemma attemptDownload_run args final a (fs : files) :
  exists t,
    attemptDownload args final a fs
    = (match failure final a fs with
       | Some message => inr (Thrown message)
       | None => inl tt
       end,
       afterSettle a fs,
       Spawn "yt-dlp" args :: SetTimeout (1000 * 60 * 15) :: t) /\
    Forall (fun e => fromCallback e = true) t.
Proof.
  destruct (runCallbacks_run final (map Output (chunks a) ++ [Ending (ending_of a)])
              (Pending, true) fs) as (t & E & Q).
  exists t. split; [|exact Q].
  unfold attemptDownload.
  unfold bind at 1. unfold perform at 1. unfold bind at 1. unfold perform at 1.
  unfold bind. rewrite E.
  assert (Hp : fst (settledBy final (Pending, true)
                      (map Output (chunks a) ++ [Ending (ending_of a)]) fs)
               = match failure final a fs with
                 | Some message => Rejected message
                 | None => Resolved
                 end).
  { rewrite settledBy_chunks.
    change (settledBy final (Pending, true) [Ending (ending_of a)]
              (afterCallbacks (map Output (chunks a)) fs))
      with (endState final (Pending, true) (ending_of a)
              (afterCallbacks (map Output (chunks a)) fs)).
    assert (He : endState final (Pending, true) (ending_of a)
                   (afterCallbacks (map Output (chunks a)) fs)
                 = (verdict final (ending_of a)
                      (afterCallbacks (map Output (chunks a)) fs), false))
      by now destruct (ending_of a).
    rewrite He. apply verdict_failure. }
  rewrite Hp, afterCallbacks_app. unfold afterSettle.
  destruct (failure final a fs); simpl; unfold throw, ret; simpl;
    now rewrite ?app_nil_r.
Qed.

Lemma lateCallbacks_run final message a (fs : files) :
  exists t,
    lateCallbacks final message a fs = (inl tt, afterCallbacks (late a) fs, t) /\
    Forall (fun e => fromCallback e = true) t.
Proof.
  destruct (runCallbacks_run final (late a) (Rejected message, false) fs) as (t & E & Q).
  exists t. split; [|exact Q].
  unfold lateCallbacks. rewrite <- (app_nil_r t).
  eapply bind_run; [exact E|reflexivity].
Qed.

Lemma count_app p t1 t2 : count p (t1 ++ t2) = (count p t1 + count p t2)%nat.
Proof. unfold count. now rewrite List.filter_app, length_app. Qed.

Lemma count_callbacks p t :
  (forall e, fromCallback e = true -> p e = false) ->
  Forall (fun e => fromCallback e = true) t -> count p t = O.
Proof.
  intros Hp Ht. unfold count. induction Ht as [|e t He _ IH]; [reflexivity|].
  simpl. now rewrite (Hp e He).
Qed.

Lemma callback_not_attempt e : fromCallback e = true -> isAttempt e = false.
Proof. destruct e; try discriminate; reflexivity. Qed.
Lemma callback_not_sleep e : fromCallback e = true -> isSleep e = false.
Proof. destruct e; try discriminate; reflexivity. Qed.
Lemma callback_not_retry e : fromCallback e = true -> isRetry e = false.
Proof.
  destruct e as [| [] | | | | |]; try discriminate; try reflexivity.
  simpl. now destruct (Js.startsWith s "Retrying download...").
Qed.
Lemma callback_not_complete e : fromCallback e = true -> isComplete e = false.
Proof. destruct e as [| [] | | | | |]; try discriminate; reflexivity. Qed.

Lemma retryBody_run args final rc a (fs : files) :
  retryBody args final rc a fs
  = match failure final a fs with
    | None => (inl (Next rc true), afterSettle a fs, attemptTrace args final a fs)
    | Some message =>
        if (S rc <? maxRetries)%nat
        then (inl (Next (S rc) false), afterAttempt a fs,
              attemptTrace args final a fs
              ++ Emit (retryEvent (S rc)) :: Sleep 3000 :: lateTrace final message a fs)
        else (inl (Return (gaveUp message)), afterAttempt a fs,
              attemptTrace args final a fs
              ++ Emit (retryEvent (S rc)) :: lateTrace final message a fs)
    end.
Proof.
  destruct (attemptDownload_run args final a fs) as (t & E & _).
  unfold retryBody, try_catch, attemptTrace, lateTrace, bind at 1. rewrite E.
  destruct (failure final a fs) as [message|]; simpl.
  - destruct (lateCallbacks_run final message a (afterSettle a fs)) as (t' & E' & _).
    rewrite afterAttempt_late.
    unfold emit, perform, ret, bind, trace_of. rewrite E'. simpl.
    destruct (S rc <? maxRetries)%nat; simpl; rewrite E'; simpl;
      now rewrite ?app_nil_r.
  - unfold ret, trace_of. simpl. now rewrite app_nil_r.
Qed.

Lemma retryEvent_announcement n : Emit (retryEvent n) = announcement n.
Proof. reflexivity. Qed.

Lemma retryLoop_schedule args final fuel : forall rc atts (fs : files),
  (rc < maxRetries)%nat -> (maxRetries - rc <= fuel)%nat ->
  exists t fs' sent,
    retryLoop fuel args final rc false atts fs = (inl sent, fs', t) /\
    Schedule args final (S rc) atts fs t fs' sent.
Proof.
  induction fuel as [|fuel IH]; intros rc atts fs Hrc Hfuel; [lia|].
  pose proof (eq_refl : maxRetries = 3%nat) as Hmax.
  simpl retryLoop.
  destruct (Nat.ltb_spec rc maxRetries) as [_|]; [|lia]. cbn [andb negb].
  unfold bind. rewrite retryBody_run.
  destruct (failure final (atts O) fs) as [message|] eqn:Hf.
  - destruct (Nat.ltb_spec (S rc) maxRetries) as [Hlt|Hge].
    + destruct (IH (S rc) (later atts) (afterAttempt (atts O) fs) Hlt ltac:(lia))
        as (t & fs' & sent & E & HS).
      unfold later in E. rewrite E.
      eexists _, _, _. split; [reflexivity|].
      rewrite <- List.app_assoc. simpl.
      rewrite retryEvent_announcement.
      eapply Retrying; eauto; lia.
    + assert (S rc = 3%nat) as Hn by lia.
      eexists _, _, _. split; [reflexivity|].
      simpl. rewrite app_nil_r. rewrite retryEvent_announcement, Hn.
      now apply Failed.
  - destruct fuel; simpl; rewrite ?andb_false_r; unfold ret;
      (eexists _, _, _; split; [reflexivity|]);
      rewrite app_nil_r; (apply Succeeded; [exact Hf|lia]).
Qed.

End AttemptFacts.

Section Tame.
Context (P : effect -> bool).

Lemma tame_ret {A} (a : A) : tame P (ret a).
Proof. intros fs. split; [exact I|constructor]. Qed.

Lemma tame_throw {A} message : tame P (@throw A message).
Proof. intros fs. split; [exact I|constructor]. Qed.

Lemma tame_perform e : P e = true -> tame P (perform e).
Proof. intros He fs. split; [exact I|]. now repeat constructor. Qed.

Lemma tame_bind {A B} (m : M A) (k : A -> M B) :
  tame P m -> (forall a, tame P (k a)) -> tame P (bind m k).
Proof.
  intros Hm Hk fs. destruct (Hm fs) as [Hm1 Hm2].
  unfold bind. destruct (m fs) as [[[a|e] fs1] l1]; [|now split].
  destruct (Hk a fs1) as [Hk1 Hk2].
  destruct (k a fs1) as [[r fs2] l2]. split; [exact Hk1|].
  unfold trace_of in *. simpl in *. now apply Forall_app.
Qed.

Lemma tame_try_catch {A} (m : M A) (h : string -> M A) :
  tame P m -> (forall message, tame P (h message)) -> tame P (try_catch m h).
Proof.
  intros Hm Hh fs. destruct (Hm fs) as [Hm1 Hm2].
  unfold try_catch. destruct (m fs) as [[[a|[message| |]] fs1] l1]; try now split.
  destruct (Hh message fs1) as [Hh1 Hh2].
  destruct (h message fs1) as [[r fs2] l2]. split; [exact Hh1|].
  unfold trace_of in *. simpl in *. now apply Forall_app.
Qed.

Lemma tame_existsSync p : tame P (existsSync p).
Proof. intros fs. split; [exact I|constructor]. Qed.

Lemma tame_writeFile p content : tame P (writeFile p content).
Proof. intros fs. split; [exact I|constructor]. Qed.

Lemma tame_renameSync src dst : tame P (renameSync src dst).
Proof.
  intros fs. unfold renameSync, mild, result_of, trace_of.
  destruct (fs !! src); simpl; split; auto.
Qed.

Lemma tame_unlinkSync p : tame P (unlinkSync p).
Proof.
  intros fs. unfold unlinkSync, mild, result_of, trace_of.
  destruct (fs !! p); simpl; split; auto.
Qed.

Lemma tame_forEach {A} (f : A -> M unit) xs :
  (forall x, tame P (f x)) -> tame P (forEach f xs).
Proof.
  intros Hf. induction xs as [|x xs IH]; simpl.
  - apply tame_ret.
  - apply tame_bind; auto.
Qed.
End Tame.

(** A mild run inside [try { .. } catch { }] returns. *)
Lemma swallow_mild {A} (m : M A) (a : A) fs :
  mild (m fs) ->
  exists a', try_catch m (fun _ => ret a) fs = (inl a', files_of (m fs), trace_of (m fs)).
Proof.
  unfold mild, try_catch, result_of, files_of, trace_of.
  destruct (m fs) as [[[a'|[message| |]] fs1] l1]; simpl; try tauto; intros _.
  - now exists a'.
  - exists a. unfold ret. now rewrite app_nil_r.
Qed.

Section EmbedTame.
Context `{Platform}.

Lemma tame_embedMetadata o filePath metadata : tame fromEmbed (embedMetadata o filePath metadata).
Proof.
  unfold embedMetadata.
  apply tame_try_catch; [|intros; apply tame_throw].
  apply tame_bind.
  { unfold resolveThumbnail. destruct metadata as [md|]; [|apply tame_ret].
    destruct (_ && _).
    - apply tame_try_catch; [|intros; apply tame_ret].
      apply tame_bind; [|intros; apply tame_ret].
      unfold downloadToFile. apply tame_bind; [now apply tame_perform|].
      intros _. destruct (thumb_fetch o).
      + apply tame_throw.
      + apply tame_bind; [apply tame_writeFile|intros; apply tame_throw].
      + apply tame_writeFile.
    - destruct (Js.truthy _); [|apply tame_ret].
      apply tame_bind; [apply tame_existsSync|intros; apply tame_ret]. }
  intros thumbPath. apply tame_bind.
  { unfold ffmpegArgs. destruct metadata; [|apply tame_throw].
    destruct (Js.truthy thumbPath); apply tame_ret. }
  intros args. unfold runFfmpeg.
  apply tame_bind; [now apply tame_perform|]. intros _.
  destruct (transcoder o) as [message|code stderr output]; [apply tame_throw|].
  apply tame_bind.
  { destruct output; [apply tame_writeFile|apply tame_ret]. }
  intros _. destruct (isZero code); [|apply tame_throw].
  apply tame_try_catch; [|intros; apply tame_ret].
  apply tame_bind; [apply tame_renameSync|]. intros _.
  destruct (_ && _); [|apply tame_ret].
  apply tame_bind; [apply tame_existsSync|].
  intros []; [apply tame_unlinkSync|apply tame_ret].
Qed.

Lemma tame_cleanup id : tame (fun _ => false) (cleanup id).
Proof.
  unfold cleanup. apply tame_bind.
  { intros fs. split; [exact I|constructor]. }
  intros names. apply tame_forEach. intros file.
  destruct (_ && _); [|apply tame_ret].
  apply tame_try_catch; [apply tame_unlinkSync|intros; apply tame_ret].
Qed.

Lemma tame_fetchVideoInfo code stdout stderr url :
  tame fromEmbed (fetchVideoInfo (DumpExit code stdout stderr) url).
Proof.
  unfold fetchVideoInfo. apply tame_bind; [now apply tame_perform|]. intros _.
  destruct (negb (isZero code)); [apply tame_throw|].
  destruct stdout; [apply tame_throw|apply tame_ret].
Qed.
End EmbedTame.

Section DownloadFacts.
Context `{Platform}.

Lemma forEach_returns {A} (f : A -> M unit) :
  (forall x (fs : files), exists fs', f x fs = (inl tt, fs', [])) ->
  forall xs (fs : files), exists fs', forEach f xs fs = (inl tt, fs', []).
Proof.
  intros Hf. induction xs as [|x xs IH]; intros fs; simpl.
  - now exists fs.
  - destruct (Hf x fs) as (fs1 & E1). destruct (IH fs1) as (fs2 & E2).
    exists fs2. change (@nil effect) with (@nil effect ++ []).
    eapply bind_run; eauto.
Qed.

Lemma cleanup_run id (fs : files) : exists fs', cleanup id fs = (inl tt, fs', []).
Proof.
  unfold cleanup, bind, readdirSync.
  match goal with
  | |- context [forEach ?f ?xs fs] =>
      assert (Hf : forall x (fs0 : files), exists fs', f x fs0 = (inl tt, fs', []));
      [|destruct (forEach_returns f Hf xs fs) as (fs' & E)]
  end.
  - intros file fs0. destruct (_ && _); [|now exists fs0].
    unfold try_catch, unlinkSync, ret.
    destruct (fs0 !! path_join downloadsDir file); eexists; reflexivity.
  - exists fs'. now rewrite E.
Qed.

Lemma embedStep_run o url final (fs : files) :
  exists fs2 t2,
    Forall (fun e => fromEmbed e = true) t2 /\
    embedStep o url final fs
    = (match refetch o with
       | DumpSpawnFailed message => inr (Uncaught message)
       | DumpExit _ _ _ => inl tt
       end, fs2, t2).
Proof.
  unfold embedStep. destruct (refetch o) as [message|code stdout stderr].
  - eexists _, _. split; [|reflexivity]. now repeat constructor.
  - match goal with
    | |- context [try_catch ?m _ fs] =>
        assert (Hm : tame fromEmbed m)
    end.
    { apply tame_bind; [apply tame_fetchVideoInfo|].
      intros videoInfo. apply tame_embedMetadata. }
    destruct (Hm fs) as [Hmild Htrace].
    destruct (swallow_mild _ tt fs Hmild) as ([] & E).
    eexists _, _. split; [exact Htrace|exact E].
Qed.

Lemma download_run req o (fs : files) :
  Js.truthy (url req) = true ->
  let final := path_join downloadsDir (uuid o) +:+ ".mp4" in
  let args := filteredArgs (path_join downloadsDir (uuid o)) (default "" (url req))
                (videoItag req) (audioItag req) in
  exists t fs1 sent,
    Schedule args final 1 (attempts o) fs t fs1 sent /\
    match sent with
    | Some r => download req o fs = (inl r, fs1, t)
    | None =>
        exists fs2 t2,
          Forall (fun e => fromEmbed e = true) t2 /\
          download req o fs
          = match refetch o with
            | DumpSpawnFailed message => (inr (Uncaught message), fs2, t ++ t2)
            | DumpExit _ _ _ =>
                (inl (succeeded (uuid o)), fs2,
                 t ++ t2 ++ [Emit (Complete (uuid o +:+ ".mp4"))])
            end
    end.
Proof.
  intros Hurl final args.
  destruct (retryLoop_schedule args final maxRetries O (attempts o) fs)
    as (t & fs1 & sent & E & HS); [unfold maxRetries; lia|lia|].
  exists t, fs1, sent. split; [exact HS|].
  unfold download. rewrite Hurl. cbv iota. simpl negb. cbv iota.
  fold final. fold args.
  destruct sent as [r|].
  - rewrite <- (app_nil_r t). eapply bind_run; [exact E|reflexivity].
  - destruct (embedStep_run o (default "" (url req)) final fs1) as (fs2 & t2 & Q2 & E2).
    destruct (refetch o) as [message|code stdout stderr].
    + exists fs2, t2. split; [exact Q2|].
      eapply bind_run; [exact E|]. eapply bind_inr. exact E2.
    + destruct (cleanup_run (uuid o) fs2) as (fs3 & E3).
      exists fs3, t2. split; [exact Q2|].
      eapply bind_run; [exact E|].
      eapply bind_run; [exact E2|].
      change ([Emit (Complete (uuid o +:+ ".mp4"))])
        with ([] ++ [Emit (Complete (uuid o +:+ ".mp4"))] ++ []).
      eapply bind_run; [exact E3|].
      eapply bind_run; reflexivity.
Qed.
End DownloadFacts.

Section PolicyFacts.
Context `{Platform}.

Lemma count_cons p e t : count p (e :: t) = ((if p e then 1 else 0) + count p t)%nat.
Proof. unfold count. simpl. now destruct (p e). Qed.


Lemma count_embed p t :
  (forall e, fromEmbed e = true -> p e = false) ->
  Forall (fun e => fromEmbed e = true) t -> count p t = O.
Proof.
  intros Hp Ht. unfold count. induction Ht as [|e t He _ IH]; [reflexivity|].
  simpl. now rewrite (Hp e He).
Qed.

Lemma embed_not_retry e : fromEmbed e = true -> isRetry e = false.
Proof. destruct e; try discriminate; reflexivity. Qed.
Lemma embed_not_complete e : fromEmbed e = true -> isComplete e = false.
Proof. destruct e; try discriminate; reflexivity. Qed.

Lemma filteredArgs_shape base u v a :
  exists mid,
    filteredArgs base u v a
    = "--no-warnings" :: mid ++ [ "--merge-output-format"; "mp4";
                                   "--postprocessor-args"; "-c:v copy -c:a aac -b:a 192k" ].
Proof.
  unfold filteredArgs. rewrite !List.filter_app.
  match goal with
  | |- context [List.filter ?f (?x :: ?l) ++ _] =>
      change (List.filter f (x :: l)) with (x :: List.filter f l)
  end.
  match goal with
  | |- context [_ ++ List.filter ?f ?l ] =>
      change (List.filter f l)
        with [ "--merge-output-format"; "mp4";
               "--postprocessor-args"; "-c:v copy -c:a aac -b:a 192k" ]
  end.
  eexists. reflexivity.
Qed.

Lemma filteredArgs_attempt base u v a :
  isAttempt (Spawn "yt-dlp" (filteredArgs base u v a)) = true.
Proof. destruct (filteredArgs_shape base u v a) as (mid & ->). reflexivity. Qed.

Section Counts.
Variables (args : list string) (final : string).
Hypothesis Hargs : isAttempt (Spawn "yt-dlp" args) = true.

Lemma attemptTrace_counts a (fs : files) :
  (exists t', attemptTrace args final a fs = Spawn "yt-dlp" args :: t') /\
  count isAttempt (attemptTrace args final a fs) = 1%nat /\
  count isSleep (attemptTrace args final a fs) = O /\
  count isRetry (attemptTrace args final a fs) = O /\
  count isComplete (attemptTrace args final a fs) = O.
Proof.
  destruct (attemptDownload_run args final a fs) as (t & E & Q).
  unfold attemptTrace. rewrite E. unfold trace_of. simpl snd.
  split; [eauto|].
  rewrite !count_cons, Hargs.
  rewrite (count_callbacks _ _ callback_not_attempt Q),
          (count_callbacks _ _ callback_not_sleep Q),
          (count_callbacks _ _ callback_not_retry Q),
          (count_callbacks _ _ callback_not_complete Q).
  repeat split; reflexivity.
Qed.

Lemma lateTrace_counts message a (fs : files) :
  count isAttempt (lateTrace final message a fs) = O /\
  count isSleep (lateTrace final message a fs) = O /\
  count isRetry (lateTrace final message a fs) = O /\
  count isComplete (lateTrace final message a fs) = O.
Proof.
  destruct (lateCallbacks_run final message a (afterSettle a fs)) as (t & E & Q).
  unfold lateTrace. rewrite E. unfold trace_of. simpl snd.
  rewrite (count_callbacks _ _ callback_not_attempt Q),
          (count_callbacks _ _ callback_not_sleep Q),
          (count_callbacks _ _ callback_not_retry Q),
          (count_callbacks _ _ callback_not_complete Q).
  repeat split; reflexivity.
Qed.

Lemma announcement_counts n :
  isAttempt (announcement n) = false /\ isSleep (announcement n) = false /\
  isRetry (announcement n) = true /\ isComplete (announcement n) = false.
Proof. repeat split. Qed.

Lemma schedule_counts n atts (fs : files) t fs' sent :
  Schedule args final n atts fs t fs' sent ->
  (n <= 3)%nat ->
  (exists t', t = Spawn "yt-dlp" args :: t') /\
  (1 <= count isAttempt t)%nat /\
  (count isAttempt t + n <= 3 + 1)%nat /\
  (count isSleep t + 1 = count isAttempt t)%nat /\
  (count isRetry t + match sent with Some _ => 0 | None => 1 end
   = count isAttempt t)%nat /\
  count isComplete t = O.
Proof.
  induction 1 as [n atts fs Hf Hn | n atts fs message t fs' sent Hf Hn HS IH
                  | atts fs message Hf]; intros Hle.
  - destruct (attemptTrace_counts (atts O) fs) as (Hhd & -> & -> & -> & ->).
    split; [exact Hhd|]. repeat split; simpl; lia.
  - destruct (attemptTrace_counts (atts O) fs) as ((t0 & Hhd) & Ha & Hs & Hr & Hc).
    destruct (lateTrace_counts message (atts O) fs) as (La & Ls & Lr & Lc).
    destruct (announcement_counts n) as (Na & Ns & Nr & Nc).
    destruct (IH ltac:(lia)) as (_ & I1 & I2 & I3 & I4 & I5).
    rewrite !count_app, !count_cons, !count_app, Ha, Hs, Hr, Hc, La, Ls, Lr, Lc,
      Na, Ns, Nr, Nc.
    split; [rewrite Hhd; simpl; eauto|].
    repeat split; simpl; lia.
  - destruct (attemptTrace_counts (atts O) fs) as ((t0 & Hhd) & Ha & Hs & Hr & Hc).
    destruct (lateTrace_counts message (atts O) fs) as (La & Ls & Lr & Lc).
    destruct (announcement_counts 3) as (Na & Ns & Nr & Nc).
    rewrite !count_app, !count_cons, Ha, Hs, Hr, Hc, La, Ls, Lr, Lc, Na, Ns, Nr, Nc.
    split; [rewrite Hhd; simpl; eauto|].
    repeat split; simpl; lia.
Qed.

Lemma schedule_sent n atts (fs : files) t fs' r :
  Schedule args final n atts fs t fs' (Some r) -> exists message, r = gaveUp message.
Proof.
  remember (Some r) as sent eqn:Hs.
  induction 1; try discriminate; auto.
  injection Hs as <-. eauto.
Qed.

Lemma schedule_allFail k : forall n atts (fs : files) t fs' sent,
  Schedule args final n atts fs t fs' sent ->
  (k + n = 3 + 1)%nat ->
  allFail final k atts fs = true ->
  exists message, sent = Some (gaveUp message).
Proof.
  induction k as [|k IH]; intros n atts fs t fs' sent HS Hk Hall.
  - inversion HS; subst; lia.
  - simpl in Hall. inversion HS as [? ? ? Hf|? ? ? ? ? ? ? Hf ? HS'|? ? ? Hf]; subst.
    + rewrite Hf in Hall. discriminate.
    + rewrite Hf in Hall. eapply IH; eauto. lia.
    + eauto.
Qed.

Lemma schedule_some_succeed k : forall n atts (fs : files) t fs' sent,
  Schedule args final n atts fs t fs' sent ->
  (k + n = 3 + 1)%nat ->
  allFail final k atts fs = false ->
  sent = None.
Proof.
  induction k as [|k IH]; intros n atts fs t fs' sent HS Hk Hall; [discriminate|].
  simpl in Hall.
  inversion HS as [? ? ? Hf|? ? ? ? ? ? ? Hf ? HS'|? ? ? Hf]; subst.
  - reflexivity.
  - rewrite Hf in Hall. eapply IH; eauto. lia.
  - rewrite Hf in Hall. assert (k = O) as -> by lia.
    discriminate.
Qed.

Lemma filter_count_nil p (t : list effect) : count p t = O -> List.filter p t = [].
Proof. unfold count. now destruct (List.filter p t). Qed.

(** The announcements of a schedule are numbered from its first attempt
    on. *)
Lemma schedule_retries n atts (fs : files) t fs' sent :
  Schedule args final n atts fs t fs' sent ->
  List.filter isRetry t = map announcement (seq n (count isRetry t)).
Proof.
  induction 1 as [n atts fs Hf Hn | n atts fs message t fs' sent Hf Hn HS IH
                  | atts fs message Hf].
  - destruct (attemptTrace_counts (atts O) fs) as (_ & _ & _ & R & _).
    rewrite R. now apply filter_count_nil.
  - destruct (attemptTrace_counts (atts O) fs) as (_ & _ & _ & R & _).
    destruct (lateTrace_counts message (atts O) fs) as (_ & _ & L & _).
    rewrite count_app, !count_cons, count_app, R, L.
    rewrite List.filter_app, (filter_count_nil _ _ R).
    change (List.filter isRetry (announcement n :: Sleep 3000
                                   :: lateTrace final message (atts O) fs ++ t))
      with (announcement n
              :: List.filter isRetry (lateTrace final message (atts O) fs ++ t)).
    rewrite List.filter_app, (filter_count_nil _ _ L).
    change (isRetry (announcement n)) with true.
    change (isRetry (Sleep 3000)) with false.
    cbn [app Nat.add seq map]. f_equal. exact IH.
  - destruct (attemptTrace_counts (atts O) fs) as (_ & _ & _ & R & _).
    destruct (lateTrace_counts message (atts O) fs) as (_ & _ & L & _).
    rewrite count_app, count_cons, R, L.
    rewrite List.filter_app, (filter_count_nil _ _ R).
    change (List.filter isRetry (announcement 3 :: lateTrace final message (atts O) fs))
      with (announcement 3 :: List.filter isRetry (lateTrace final message (atts O) fs)).
    rewrite (filter_count_nil _ _ L). reflexivity.
Qed.


(** A schedule that ends with an answer has seen every attempt fail. *)
Lemma schedule_gaveUp n atts (fs : files) t fs' sent :
  Schedule args final n atts fs t fs' sent ->
  forall r, sent = Some r -> allFail final (3 + 1 - n) atts fs = true.
Proof.
  induction 1 as [n atts fs Hf Hn | n atts fs message t fs' sent Hf Hn HS IH
                  | atts fs message Hf]; intros r Hr; [discriminate| |].
  - replace (3 + 1 - n)%nat with (S (3 + 1 - S n)) by lia.
    simpl. rewrite Hf. eapply IH; eauto.
  - simpl. now rewrite Hf.
Qed.
End Counts.
End PolicyFacts.

(* ===================================================================== *)
(** ** The Metadata Embedder *)
(* ===================================================================== *)

Section EmbedClaims.
Context `{Platform}.

Lemma resolveThumbnail_absent o md t (fs : files) :
  thumbnail md = Some t -> Js.isHttpUrl t = false -> fs !! t = None ->
  resolveThumbnail o (Some md) fs = (inl None, fs, []).
Proof.
  intros Ht Hu Hf. unfold resolveThumbnail. rewrite Ht. cbn [default from_option id].
  rewrite Hu, andb_false_r.
  destruct (Js.truthy (Some t)); [|reflexivity].
  unfold bind, existsSync, ret. rewrite Hf. reflexivity.
Qed.

(** C7.  A thumbnail value that is no http(s) URL and no existing local path
    makes the thumbnail step return no path, without an exception, an
    effect or a change of the files; the Transcoder is then spawned with
    the tag-only arguments (one input, no attached-picture disposition),
    and the embedder fails only if that Transcoder run does. *)
Theorem missing_thumbnail_tag_only o filePath md t (fs : files) :
  thumbnail md = Some t -> Js.isHttpUrl t = false -> fs !! t = None ->
  resolveThumbnail o (Some md) fs = (inl None, fs, []) /\
  trace_of (embedMetadata o filePath (Some md) fs) =
    [ Spawn ffmpegPath
        [ "-i"; filePath; "-c"; "copy";
          "-metadata"; "title=" +:+ Js.orStr (title md) "";
          "-metadata"; "artist=" +:+ Js.orStr (artist md) "";
          "-metadata"; "comment=Downloaded with ULTRA Downloader";
          tempPathOf filePath ] ] /\
  result_of (embedMetadata o filePath (Some md) fs) =
    match transcoder o with
    | FfSpawnFailed message => inr (Thrown message)
    | FfExit code stderr _ =>
        if isZero code then inl tt
        else inr (Thrown ("FFmpeg exited with code " +:+ showCode code
                          +:+ ". Stderr: " +:+ stderr))
    end.
Proof.
  intros Ht Hu Hf.
  pose proof (resolveThumbnail_absent o md t fs Ht Hu Hf) as Hr.
  split; [exact Hr|].
  unfold embedMetadata, try_catch.
  rewrite (bind_inl _ _ _ _ _ _ Hr).
  unfold ffmpegArgs. simpl Js.truthy. cbv iota.
  unfold runFfmpeg.
  destruct (transcoder o) as [message|code stderr output].
  - split; reflexivity.
  - destruct output as [content|]; destruct (isZero code) eqn:Hz.
    all: unfold bind, ret, perform, writeFile, try_catch, renameSync, throw,
           result_of, files_of, trace_of; simpl.
    all: rewrite ?lookup_insert_eq; simpl.
    all: try (split; reflexivity).
    destruct (fs !! tempPathOf filePath); simpl; split; reflexivity.
Qed.

(** The thumbnail stage never throws and touches at most the download
    target. *)
Lemma resolveThumbnail_frame o metadata (fs : files) :
  exists tp fs1 l,
    resolveThumbnail o metadata fs = (inl tp, fs1, l) /\
    forall p, p <> thumbPathOf o -> fs1 !! p = fs !! p.
Proof.
  unfold resolveThumbnail. destruct metadata as [md|]; [|now exists None, fs, []].
  destruct (Js.truthy (thumbnail md) && Js.isHttpUrl (default "" (thumbnail md))).
  - unfold try_catch, downloadToFile, bind, perform, writeFile, throw, ret.
    destruct (thumb_fetch o); simpl; eexists _, _, _; (split; [reflexivity|]);
      intros p Hp; try reflexivity; now rewrite lookup_insert_ne.
  - destruct (Js.truthy (thumbnail md)); [|now exists None, fs, []].
    unfold bind, existsSync, ret. simpl. eexists _, _, _. split; [reflexivity|done].
Qed.

(** C8.  When the Transcoder exits with a code other than 0, the embedder
    throws an error whose message carries the code and the Transcoder's
    stderr text, and the file at [filePath] is as it was (the paths of the
    embedder's two temporary files being other paths). *)
Theorem transcoder_failure_surfaces o filePath md (fs : files) code stderr output :
  transcoder o = FfExit code stderr output ->
  isZero code = false ->
  filePath <> tempPathOf filePath ->
  filePath <> thumbPathOf o ->
  result_of (embedMetadata o filePath (Some md) fs) =
    inr (Thrown ("FFmpeg exited with code " +:+ showCode code
                 +:+ ". Stderr: " +:+ stderr)) /\
  files_of (embedMetadata o filePath (Some md) fs) !! filePath = fs !! filePath.
Proof.
  intros Ht Hz Htemp Hthumb.
  destruct (resolveThumbnail_frame o (Some md) fs) as (tp & fs1 & l & Hr & Hframe).
  unfold embedMetadata, try_catch.
  rewrite (bind_inl _ _ _ _ _ _ Hr).
  unfold ffmpegArgs, runFfmpeg. rewrite Ht, Hz.
  destruct (Js.truthy tp), output as [content|];
    unfold bind, ret, perform, writeFile, throw, result_of, files_of, trace_of;
    simpl; (split; [reflexivity|]);
    rewrite ?lookup_insert_ne by congruence; now apply Hframe.
Qed.
End EmbedClaims.

(** C9, failing input.  A cover image that exists as a local file, was not
    downloaded by the embedder and has [thumb_] in its path is deleted
    after a successful Transcoder run. *)
Lemma local_thumbnail_deleted :
  fs_local !! local_cover = Some "cover" /\
  Js.isHttpUrl local_cover = false /\
  (let run := @embedMetadata posix embed_ok final0 (Some md_local) fs_local in
   result_of run = inl tt /\
   trace_of run =
     [ Spawn ffmpegPath
         [ "-i"; final0; "-i"; local_cover; "-map"; "0"; "-map"; "1";
           "-c"; "copy"; "-metadata"; "title=A title";
           "-metadata"; "artist=An uploader";
           "-metadata"; "comment=Downloaded with ULTRA Downloader";
           "-disposition:v:1"; "attached_pic";
           "/srv/app/downloads/meta_temp_abc.mp4" ] ] /\
   files_of run !! local_cover = None).
Proof. vm_compute. repeat split. Qed.

(* ===================================================================== *)
(** ** The download handler *)
(* ===================================================================== *)

Section Claims.
Context `{Platform}.


(** C2.  When all three attempts fail, the handler answers with status 500,
    error "Download failed after retries" and the last failure as details;
    the answer is no success body and no completion event is published. *)
Theorem exhausted_retries_fail (req : Request) (o : oracle) (fs : files) :
  Js.truthy (url req) = true ->
  allFail (path_join downloadsDir (uuid o) +:+ ".mp4") maxRetries (attempts o) fs = true ->
  (exists details,
     result_of (download req o fs)
     = inl {| status := 500;
              body_of := ErrorBody "Download failed after retries" (Some details) |}) /\
  (forall st file,
     result_of (download req o fs) <> inl {| status := st; body_of := SuccessBody file |}) /\
  count isComplete (trace_of (download req o fs)) = O.
Proof.
  intros Hurl Hall.
  destruct (download_run req o fs Hurl) as (t & fs1 & sent & HS & Hrun).
  destruct (schedule_allFail _ _ maxRetries _ _ _ _ _ _ HS eq_refl Hall)
    as (message & ->).
  destruct (schedule_counts _ _ (filteredArgs_attempt _ _ _ _) _ _ _ _ _ _ HS)
    as (_ & _ & _ & _ & _ & C5); [lia|].
  rewrite Hrun. unfold result_of, trace_of. simpl. repeat split.
  - now exists message.
  - intros st file. discriminate.
  - exact C5.
Qed.

(** C3.  When the first attempt fails and the second succeeds, the handler
    yields what a request with the same id and the same metadata re-fetch
    yields whose first attempt succeeds, and exactly one retry announcement
    is published. *)
Theorem transient_failure_same_result (req : Request) (o o' : oracle)
  (fs fs' : files) (message : string) :
  Js.truthy (url req) = true ->
  let final := path_join downloadsDir (uuid o) +:+ ".mp4" in
  failure final (attempts o 0%nat) fs = Some message ->
  failure final (attempts o 1%nat) (afterAttempt (attempts o 0%nat) fs) = None ->
  uuid o' = uuid o -> refetch o' = refetch o ->
  failure final (attempts o' 0%nat) fs' = None ->
  result_of (download req o fs) = result_of (download req o' fs') /\
  result_of (download req o fs)
  = match refetch o with
    | DumpSpawnFailed m => inr (Uncaught m)
    | DumpExit _ _ _ => inl {| status := 200; body_of := SuccessBody (uuid o +:+ ".mp4") |}
    end /\
  count isRetry (trace_of (download req o fs)) = 1%nat.
Proof.
  intros Hurl final Hf0 Hf1 Hid Hre Hf'.
  destruct (download_run req o fs Hurl) as (t & fs1 & sent & HS & Hrun).
  destruct (download_run req o' fs' Hurl) as (t' & fs1' & sent' & HS' & Hrun').
  rewrite Hid in HS', Hrun'. fold final in HS, HS'.
  assert (sent' = None) as ->.
  { inversion HS' as [| ? ? ? ? ? ? ? Hx | ? ? ? Hx]; subst; auto; congruence. }
  assert (Hs : sent = None /\ count isRetry t = 1%nat).
  { pose proof (schedule_counts _ _ (filteredArgs_attempt _ _ _ _) _ _ _ _ _ _ HS)
      as Hc.
    inversion HS as [? ? ? Hx | ? ? ? ? ? ? ? Hx Hn HS2 | ? ? ? Hx]; subst;
      try congruence.
    inversion HS2 as [? ? ? Hy | ? ? ? ? ? ? ? Hy | ? ? ? Hy]; subst;
      unfold later in Hy; try congruence.
    split; [reflexivity|].
    pose (args := filteredArgs (path_join downloadsDir (uuid o))
                    (default "" (url req)) (videoItag req) (audioItag req)).
    destruct (attemptTrace_counts args final (filteredArgs_attempt _ _ _ _)
                (attempts o 0%nat) fs) as (_ & _ & _ & R0 & _).
    destruct (attemptTrace_counts args final (filteredArgs_attempt _ _ _ _)
                (attempts o 1%nat) (afterAttempt (attempts o 0%nat) fs))
      as (_ & _ & _ & R1 & _).
    destruct (lateTrace_counts final message (attempts o 0%nat) fs) as (_ & _ & L0 & _).
    fold args.
    rewrite count_app, !count_cons, count_app. unfold later.
    assert (message0 = message) as -> by congruence.
    rewrite R0, L0, R1. reflexivity. }
  destruct Hs as [-> Hr].
  destruct Hrun as (fs2 & t2 & Q2 & Hrun). destruct Hrun' as (fs2' & t2' & Q2' & Hrun').
  rewrite Hre in Hrun'. rewrite Hrun, Hrun'.
  destruct (refetch o); unfold result_of, trace_of; simpl.
  - repeat split. rewrite count_app, Hr, (count_embed _ _ embed_not_retry Q2). reflexivity.
  - repeat split. rewrite !count_app, Hr, (count_embed _ _ embed_not_retry Q2).
    reflexivity.
Qed.

(** C10.  Whatever format identifiers the request carries, a success
    response names the file [<id>.mp4], the completion event, the last
    effect of the handler and the only completion published, names the
    same file, and the Extractor is asked to merge into an mp4 container. *)
Theorem output_always_mp4 (req : Request) (o : oracle) (fs : files) st file :
  result_of (download req o fs) = inl {| status := st; body_of := SuccessBody file |} ->
  file = uuid o +:+ ".mp4" /\
  (exists before, trace_of (download req o fs)
                  = before ++ [Emit (Complete (uuid o +:+ ".mp4"))]
                  /\ count isComplete before = O) /\
  (exists first mid more,
     trace_of (download req o fs)
     = Spawn "yt-dlp"
         (first ++ mid ++ [ "--merge-output-format"; "mp4";
                   "--postprocessor-args"; "-c:v copy -c:a aac -b:a 192k" ]) :: more).
Proof.
  intros Hres.
  destruct (Js.truthy (url req)) eqn:Hurl.
  2:{ unfold download in Hres. rewrite Hurl in Hres. discriminate. }
  destruct (download_run req o fs Hurl) as (t & fs1 & sent & HS & Hrun).
  destruct (schedule_counts _ _ (filteredArgs_attempt _ _ _ _) _ _ _ _ _ _ HS)
    as ((t0 & Ht) & _ & _ & _ & _ & C5); [unfold maxRetries; lia|].
  destruct sent as [r|].
  - destruct (schedule_sent _ _ _ _ _ _ _ _ HS) as (m & ->).
    rewrite Hrun in Hres. discriminate.
  - destruct Hrun as (fs2 & t2 & Q2 & Hrun).
    destruct (refetch o); rewrite Hrun in Hres |- *; [discriminate|].
    unfold result_of, trace_of in *. simpl in *.
    injection Hres as _ <-. split; [reflexivity|]. split.
    + exists (t ++ t2). rewrite <- List.app_assoc. split; [reflexivity|].
      now rewrite count_app, C5, (count_embed _ _ embed_not_complete Q2).
    + destruct (filteredArgs_shape (path_join downloadsDir (uuid o))
                  (default "" (url req)) (videoItag req) (audioItag req))
        as (mid & Hmid).
      exists ["--no-warnings"], mid, (t0 ++ t2 ++ [Emit (Complete (uuid o +:+ ".mp4"))]).
      rewrite Ht, Hmid. reflexivity.
Qed.
End Claims.

(** C4, failing input.  The download succeeds at the first attempt, then
    the Extractor cannot be spawned for the metadata re-fetch:
    [fetchVideoInfo] has no listener for the 'error' event, the exception
    escapes the handler's [try]/[catch], and neither a response nor a
    completion event is produced. *)
Lemma refetch_spawn_failure_no_response :
  failure final0 (attempts w_refetch_spawn 0%nat) ∅ = None /\
  result_of (@download posix req0 w_refetch_spawn ∅)
  = inr (Uncaught "spawn yt-dlp EAGAIN") /\
  count isComplete (trace_of (@download posix req0 w_refetch_spawn ∅)) = O.
Proof. vm_compute. repeat split. Qed.


Lemma exhausted_retries_fail_witness :
  Js.truthy (url req0) = true /\
  allFail (@path_join posix (@downloadsDir posix) (uuid w_exhausted) +:+ ".mp4")
    maxRetries (attempts w_exhausted) ∅ = true /\
  exists details,
    result_of (@download posix req0 w_exhausted ∅)
    = inl {| status := 500;
             body_of := ErrorBody "Download failed after retries" (Some details) |}.
Proof.
  split; [reflexivity|]. split; [vm_compute; reflexivity|].
  apply (@exhausted_retries_fail posix req0 w_exhausted ∅);
    [reflexivity|vm_compute; reflexivity].
Defined.

Lemma transient_failure_same_result_witness :
  failure final0 (attempts w_retry 0%nat) ∅ = Some "Download failed with code 1" /\
  failure final0 (attempts w_retry 1%nat) (afterAttempt (attempts w_retry 0%nat) ∅) = None /\
  failure final0 (attempts w_ok 0%nat) ∅ = None /\
  result_of (@download posix req0 w_retry ∅) = result_of (@download posix req0 w_ok ∅) /\
  count isRetry (trace_of (@download posix req0 w_retry ∅)) = 1%nat.
Proof.
  split; [vm_compute; reflexivity|]. split; [vm_compute; reflexivity|].
  split; [vm_compute; reflexivity|].
  destruct (@transient_failure_same_result posix req0 w_retry w_ok ∅ ∅
              "Download failed with code 1" eq_refl)
    as (E & _ & C); try (vm_compute; reflexivity).
  split; [exact E|exact C].
Defined.

Lemma output_always_mp4_witness :
  result_of (@download posix req0 w_ok ∅)
  = inl {| status := 200; body_of := SuccessBody "abc.mp4" |} /\
  "abc.mp4" = uuid w_ok +:+ ".mp4".
Proof.
  assert (E : result_of (@download posix req0 w_ok ∅)
              = inl {| status := 200; body_of := SuccessBody "abc.mp4" |})
    by (vm_compute; reflexivity).
  split; [exact E|].
  exact (proj1 (@output_always_mp4 posix req0 w_ok ∅ 200 "abc.mp4" E)).
Defined.

Lemma missing_thumbnail_tag_only_witness :
  thumbnail md_missing = Some "cover.png" /\
  Js.isHttpUrl "cover.png" = false /\
  fs_final !! "cover.png" = None /\
  @resolveThumbnail posix embed_ok (Some md_missing) fs_final = (inl None, fs_final, []).
Proof.
  split; [reflexivity|]. split; [reflexivity|]. split; [vm_compute; reflexivity|].
  apply (proj1 (@missing_thumbnail_tag_only posix embed_ok final0 md_missing
                  "cover.png" fs_final eq_refl eq_refl ltac:(vm_compute; reflexivity))).
Defined.

Lemma transcoder_failure_surfaces_witness :
  transcoder embed_fail
  = FfExit (Some 1) "Invalid data found when processing input" None /\
  isZero (Some 1) = false /\
  final0 <> @tempPathOf posix final0 /\
  final0 <> @thumbPathOf posix embed_fail /\
  result_of (@embedMetadata posix embed_fail final0 (Some md_missing) fs_final)
  = inr (Thrown "FFmpeg exited with code 1. Stderr: Invalid data found when processing input") /\
  files_of (@embedMetadata posix embed_fail final0 (Some md_missing) fs_final) !! final0
  = fs_final !! final0.
Proof.
  assert (H1 : final0 <> @tempPathOf posix final0) by (vm_compute; discriminate).
  assert (H2 : final0 <> @thumbPathOf posix embed_fail) by (vm_compute; discriminate).
  split; [reflexivity|]. split; [reflexivity|]. split; [exact H1|]. split; [exact H2|].
  exact (@transcoder_failure_surfaces posix embed_fail final0 md_missing fs_final
           (Some 1) "Invalid data found when processing input" None
           eq_refl eq_refl H1 H2).
Defined.

(* ===================================================================== *)
(** ** Further properties of the handlers *)
(* ===================================================================== *)

Section Swallowed.
Context `{Platform}.

(** X1.  Once some attempt has succeeded and the Extractor of the re-fetch could
    be spawned, nothing that goes wrong in the metadata step changes the
    answer: whatever the re-fetch exits with or prints, whatever happens to
    the thumbnail download and to the Transcoder, the handler answers 200
    with [<id>.mp4] and publishes the completion event last. *)
Theorem metadata_failures_swallowed (req : Request) (o : oracle) (fs : files)
  code stdout stderr :
  Js.truthy (url req) = true ->
  allFail (path_join downloadsDir (uuid o) +:+ ".mp4") maxRetries (attempts o) fs = false ->
  refetch o = DumpExit code stdout stderr ->
  result_of (download req o fs)
  = inl {| status := 200; body_of := SuccessBody (uuid o +:+ ".mp4") |} /\
  exists before,
    trace_of (download req o fs) = before ++ [Emit (Complete (uuid o +:+ ".mp4"))].
Proof.
  intros Hurl Hall Hre.
  destruct (download_run req o fs Hurl) as (t & fs1 & sent & HS & Hrun).
  rewrite (schedule_some_succeed _ _ maxRetries _ _ _ _ _ _ HS eq_refl Hall) in Hrun.
  destruct Hrun as (fs2 & t2 & _ & Hrun). rewrite Hre in Hrun. rewrite Hrun.
  split; [reflexivity|]. exists (t ++ t2). unfold trace_of. simpl.
  now rewrite List.app_assoc.
Qed.
End Swallowed.

Lemma metadata_failures_swallowed_witness :
  result_of (@download posix req0
               (world [att_exit1; att_ok]
                  (DumpExit (Some 1) (ParseError "") "ERROR: unavailable") embed_fail) ∅)
  = inl {| status := 200; body_of := SuccessBody "abc.mp4" |}.
Proof.
  apply (@metadata_failures_swallowed posix req0
           (world [att_exit1; att_ok]
              (DumpExit (Some 1) (ParseError "") "ERROR: unavailable") embed_fail) ∅
           (Some 1) (ParseError "") "ERROR: unavailable");
    [reflexivity|vm_compute; reflexivity|reflexivity].
Defined.

(* ===================================================================== *)
(** ** Further properties: the download handler *)
(* ===================================================================== *)

Section HandlerMore.
Context `{Platform}.

(** X2.  A request without a URL (absent or empty) is answered with status
    400 and "Missing URL" before anything else happens: no subprocess is
    spawned, no event is published, no file is touched. *)
Theorem missing_url_rejected (req : Request) (o : oracle) (fs : files) :
  Js.truthy (url req) = false ->
  download req o fs
  = (inl {| status := 400; body_of := ErrorBody "Missing URL" None |}, fs, []).
Proof. intros Hurl. unfold download. now rewrite Hurl. Qed.

(** X3.  The promise of an attempt settles once: callbacks that arrive after
    the first ending (a 'close' after the kill or after a spawn error, even
    one with exit code 0 and the output file present) change neither whether
    the attempt fails nor the reason it reports.  Run on the rejected
    promise, they leave it rejected with the same reason, and the turn of
    the retry loop ends the same way whatever they are. *)
Theorem late_callbacks_keep_outcome args final (a : attempt) late' (fs : files) :
  result_of (attemptDownload args final a fs)
  = result_of (attemptDownload args final
                 {| chunks := chunks a; ending_of := ending_of a; late := late' |} fs) /\
  (forall message (fs1 : files), exists armed fs2 t,
     runCallbacks final (Rejected message, false) late' fs1
     = (inl (Rejected message, armed), fs2, t)) /\
  (forall rc,
     result_of (retryBody args final rc a fs)
     = result_of (retryBody args final rc
                    {| chunks := chunks a; ending_of := ending_of a; late := late' |} fs)).
Proof.
  split; [|split].
  - destruct (attemptDownload_run args final a fs) as (t & -> & _).
    destruct (attemptDownload_run args final
                {| chunks := chunks a; ending_of := ending_of a; late := late' |} fs)
      as (t' & -> & _).
    reflexivity.
  - intros message fs1.
    destruct (runCallbacks_run final late' (Rejected message, false) fs1) as (t & E & _).
    pose proof (settledBy_keep final late' (Rejected message, false) fs1
                  ltac:(discriminate)) as Hk.
    destruct (settledBy final (Rejected message, false) late' fs1) as [p armed].
    simpl in Hk. subst p. eauto.
  - intros rc. rewrite !retryBody_run.
    change (failure final {| chunks := chunks a; ending_of := ending_of a;
                             late := late' |} fs)
      with (failure final a fs).
    destruct (failure final a fs); [|reflexivity].
    destruct (S rc <? maxRetries)%nat; reflexivity.
Qed.

(** X4.  The retry announcements of a request are numbered from 1 without a
    gap: in the order they are published they read (1/3), (2/3), ..., (k/3)
    for some k of at most 3, each with progress 0. *)
Theorem retry_announcements_numbered (req : Request) (o : oracle) (fs : files) :
  Js.truthy (url req) = true ->
  exists k, (k <= maxRetries)%nat /\
    List.filter isRetry (trace_of (download req o fs))
    = map (fun n => Emit (StatusPercent
                            ("Retrying download... (" +:+ Js.showZ (Z.of_nat n)
                             +:+ "/3)") 0))
          (seq 1 k).
Proof.
  intros Hurl.
  destruct (download_run req o fs Hurl) as (t & fs1 & sent & HS & Hrun).
  destruct (schedule_counts _ _ (filteredArgs_attempt _ _ _ _) _ _ _ _ _ _ HS)
    as (_ & _ & Ha & _ & Hr & _); [lia|].
  exists (count isRetry t). split; [unfold maxRetries; destruct sent; lia|].
  pose proof (schedule_retries _ _ (filteredArgs_attempt _ _ _ _) _ _ _ _ _ _ HS) as E.
  assert (F : List.filter isRetry (trace_of (download req o fs)) = List.filter isRetry t).
  { destruct sent as [r|].
    - now rewrite Hrun.
    - destruct Hrun as (fs2 & t2 & Q2 & Hrun).
      pose proof (filter_count_nil _ _ (count_embed _ _ embed_not_retry Q2)) as F2.
      destruct (refetch o); rewrite Hrun; unfold trace_of; cbn [snd];
        rewrite !List.filter_app, F2; cbn [List.filter isRetry];
        now rewrite !app_nil_r. }
  rewrite F, E. reflexivity.
Qed.
End HandlerMore.

Section Answers.
Context `{Platform}.

(** X5.  An answer of the download handler tells what happened: status 400
    with "Missing URL" is the answer to a request without a URL and to no
    other; status 500 with "Download failed after retries" and the report
    of a failure is sent only after all three attempts have failed; every
    other answer is status 200 with [<id>.mp4], sent only after some attempt
    has succeeded. *)
Theorem answer_tells_outcome (req : Request) (o : oracle) (fs : files) (r : Response) :
  result_of (download req o fs) = inl r ->
  let final := path_join downloadsDir (uuid o) +:+ ".mp4" in
  (Js.truthy (url req) = false /\
   r = {| status := 400; body_of := ErrorBody "Missing URL" None |}) \/
  (Js.truthy (url req) = true /\
   allFail final 3 (attempts o) fs = true /\
   exists details,
     r = {| status := 500;
            body_of := ErrorBody "Download failed after retries" (Some details) |}) \/
  (Js.truthy (url req) = true /\
   allFail final 3 (attempts o) fs = false /\
   r = {| status := 200; body_of := SuccessBody (uuid o +:+ ".mp4") |}).
Proof.
  intros Hres final. destruct (Js.truthy (url req)) eqn:Hurl.
  - destruct (download_run req o fs Hurl) as (t & fs1 & sent & HS & Hrun).
    fold final in HS. right.
    destruct sent as [r'|].
    + left. split; [reflexivity|].
      split; [exact (schedule_gaveUp _ _ _ _ _ _ _ _ HS r' eq_refl)|].
      destruct (schedule_sent _ _ _ _ _ _ _ _ HS) as (m & ->).
      rewrite Hrun in Hres. injection Hres as <-. now exists m.
    + right. split; [reflexivity|]. split.
      * destruct (allFail final 3 (attempts o) fs) eqn:Hall; [|reflexivity].
        destruct (schedule_allFail _ _ 3 _ _ _ _ _ _ HS eq_refl Hall) as (m & Hm).
        discriminate.
      * destruct Hrun as (fs2 & t2 & _ & Hrun).
        destruct (refetch o); rewrite Hrun in Hres; [discriminate|].
        now injection Hres as <-.
  - left. split; [reflexivity|].
    unfold download in Hres. rewrite Hurl in Hres. now injection Hres as <-.
Qed.
End Answers.

Lemma digitRun_nonneg s : Forall (fun d => 0 <= d) (fst (Js.digitRun s)).
Proof.
  induction s as [|c s IH]; simpl; [constructor|].
  destruct (Js.isDigit c) eqn:Hc; [|constructor].
  destruct (Js.digitRun s) as [ds r]. simpl in *.
  constructor; [|exact IH].
  unfold Js.isDigit in Hc. apply andb_prop in Hc as [Hc _].
  apply Nat.leb_le in Hc. lia.
Qed.

Lemma digitsValue_nonneg ds : Forall (fun d => 0 <= d) ds -> 0 <= Js.digitsValue ds.
Proof.
  unfold Js.digitsValue. intros Hds.
  assert (G : forall acc, 0 <= acc -> 0 <= fold_left (fun a d => a * 10 + d) ds acc).
  { induction Hds as [|d ds Hd _ IH]; intros acc Hacc; simpl; [exact Hacc|].
    apply IH. lia. }
  apply G. lia.
Qed.

Lemma percentAt_nonneg s q : Js.percentAt s = Some q -> (0 <= q)%Q.
Proof.
  unfold Js.percentAt.
  pose proof (digitRun_nonneg s) as Hs.
  destruct (Js.digitRun s) as [ds r]. simpl in Hs.
  destruct ds as [|d0 ds]; [discriminate|].
  assert (Hw : (0 <= inject_Z (Js.digitsValue (d0 :: ds)))%Q).
  { pose proof (digitsValue_nonneg _ Hs). unfold Qle. cbn [Qnum Qden inject_Z]. lia. }
  assert (Hplain : forall o, match r with
                             | String "%" _ => Some (inject_Z (Js.digitsValue (d0 :: ds)))
                             | _ => None
                             end = Some o -> (0 <= o)%Q).
  { intros o. destruct r as [|c r']; [discriminate|].
    destruct (Ascii.eqb_spec c "%") as [->|Hc].
    - intros [= <-]. exact Hw.
    - destruct c as [[] [] [] [] [] [] [] []]; try discriminate; congruence. }
  destruct r as [|c r']; [discriminate|].
  destruct (Ascii.eqb_spec c ".") as [->|Hc].
  - pose proof (digitRun_nonneg r') as Hr.
    destruct (Js.digitRun r') as [fs r'']. simpl in Hr.
    destruct fs as [|d fs]; [apply Hplain|].
    destruct r'' as [|c2 r3]; [apply Hplain|].
    destruct (Ascii.eqb_spec c2 "%") as [->|Hc2].
    + intros [= <-].
      assert (0 <= Js.digitsValue ((d0 :: ds) ++ d :: fs)).
      { apply digitsValue_nonneg. apply Forall_app. split; assumption. }
      unfold Qle. cbn [Qnum Qden]. change (d0 :: ds ++ d :: fs) with ((d0 :: ds) ++ d :: fs). lia.
    + destruct c2 as [[] [] [] [] [] [] [] []]; try apply Hplain; congruence.
  - destruct c as [[] [] [] [] [] [] [] []]; try apply Hplain; congruence.
Qed.

Lemma matchPercent_nonneg text q : Js.matchPercent text = Some q -> (0 <= q)%Q.
Proof.
  induction text as [|c text IH]; simpl.
  - discriminate.
  - destruct (Js.percentAt (String c text)) eqn:E.
    + intros [= <-]. now apply (percentAt_nonneg (String c text)).
    + exact IH.
Qed.

Section ChunkFacts.
Context `{Platform}.

(** X6.  No output of the Extractor makes the handler publish a negative
    percentage: every progress value scraped from a chunk is at least 0
    (nothing bounds it by 100). *)
Theorem scraped_percent_nonnegative (c : chunk) (fs : files) e :
  In (Emit e) (trace_of (onChunk c fs)) ->
  match e with
  | Percent q | StatusPercent _ q => (0 <= q)%Q
  | _ => True
  end.
Proof.
  destruct c as [text|text|path content]; simpl.
  - unfold bind, emit, perform, ret, trace_of.
    destruct (Js.matchPercent text) as [q|] eqn:Hq;
      destruct (Js.includes text "Destination:" || Js.includes text "[download] Destination:");
      destruct (Js.includes text "100%"); simpl;
      intros Hin; repeat destruct Hin as [Hin|Hin]; try contradiction;
      injection Hin as <-; try exact I; try (now apply (matchPercent_nonneg text));
      unfold Qle; simpl; lia.
  - unfold emit, perform, ret, trace_of.
    destruct (Js.matchPercent text) as [q|] eqn:Hq; simpl;
      intros Hin; repeat destruct Hin as [Hin|Hin]; try contradiction.
    injection Hin as <-. now apply (matchPercent_nonneg text).
  - intros [].
Qed.
End ChunkFacts.

Lemma files_of_mk {A} (r : A + exn) (f : files) (t : list effect) :
  files_of (r, f, t) = f.
Proof. reflexivity. Qed.

Section CleanupFacts.
Context `{Platform}.

Lemma forEach_unlink_frame (id : string) (names : list string) : forall (fs : files) p,
  let fs' := files_of
    (forEach
       (fun file =>
          if Js.startsWith file id && negb (Js.endsWith file ".mp4") then
            try_catch (unlinkSync (path_join downloadsDir file)) (fun _ => ret tt)
          else ret tt) names fs) in
  fs' !! p = fs !! p \/
  (fs' !! p = None /\
   exists name, In name names /\ p = path_join downloadsDir name /\
                Js.startsWith name id = true /\ Js.endsWith name ".mp4" = false).
Proof.
  induction names as [|name names IH]; intros fs p; [now left|].
  cbn [forEach].
  set (step := fun file : string =>
          if Js.startsWith file id && negb (Js.endsWith file ".mp4") then
            try_catch (unlinkSync (path_join downloadsDir file)) (fun _ => ret tt)
          else ret tt) in *.
  assert (Hstep : exists fs1, step name fs = (inl tt, fs1, []) /\
            (fs1 = fs \/
             (fs1 = delete (path_join downloadsDir name) fs /\
              Js.startsWith name id = true /\ Js.endsWith name ".mp4" = false))).
  { unfold step. destruct (Js.startsWith name id) eqn:E1; cbn [andb];
      [|exists fs; split; [reflexivity|now left]].
    destruct (Js.endsWith name ".mp4") eqn:E2; cbn [negb];
      [exists fs; split; [reflexivity|now left]|].
    unfold try_catch, unlinkSync, ret.
    destruct (fs !! path_join downloadsDir name); eexists; split; try reflexivity.
    - right. auto.
    - now left. }
  destruct Hstep as (fs1 & E & Hfs1).
  rewrite (bind_inl _ _ _ _ _ _ E), files_of_mk.
  specialize (IH fs1 p). cbv zeta in IH.
  destruct IH as [IH|(IHn & n' & Hin & Hp & Hs & He)].
  - rewrite IH. destruct Hfs1 as [->|(-> & Hs & He)]; [now left|].
    destruct (decide (p = path_join downloadsDir name)) as [->|Hne].
    + right. split; [apply lookup_delete_eq|]. exists name. simpl. auto.
    + left. now apply lookup_delete_ne.
  - right. split; [exact IHn|]. exists n'. simpl. auto.
Qed.

(** X7.  The clean-up after a download only removes, and only partial
    files of this request: a file that exists before it either is still
    there with the same content, or is [<downloads>/<name>] for a name
    that starts with the request id and does not end in [.mp4]; and no
    file is created or altered. *)
Theorem cleanup_only_removes_partials (id : string) (fs : files) p content :
  (fs !! p = Some content ->
   files_of (cleanup id fs) !! p = Some content \/
   exists name, p = path_join downloadsDir name /\
                Js.startsWith name id = true /\ Js.endsWith name ".mp4" = false) /\
  (files_of (cleanup id fs) !! p = Some content -> fs !! p = Some content).
Proof.
  unfold cleanup.
  erewrite bind_inl by reflexivity. rewrite files_of_mk.
  match goal with
  | |- context [forEach _ ?names fs] =>
      destruct (forEach_unlink_frame id names fs p) as [E|(E & name & _ & Hp & Hs & He)]
  end.
  - rewrite E. split; auto.
  - rewrite E. split; [|discriminate].
    intros _. right. eauto.
Qed.

(** X9.  What [fetchVideoInfo] hands on: when the Extractor exits non-zero
    the rejection carries its stderr text, or "exit code <n>" when stderr
    is empty; when it exits 0 with a readable document, the title and the
    uploader are never empty (defaults "Untitled Video" and "Unknown") and
    the thumbnail is a string, possibly empty. *)
Theorem fetchVideoInfo_outcomes code stdout stderr u (fs : files) :
  result_of (fetchVideoInfo (DumpExit code stdout stderr) u fs)
  = (if isZero code then
       match stdout with
       | ParseError message => inr (Thrown message)
       | Parsed t up th =>
           inl {| title := Some (Js.orStr t "Untitled Video");
                  artist := Some (Js.orStr up "Unknown");
                  thumbnail := Some (Js.orStr th "") |}
       end
     else inr (Thrown (if String.eqb stderr "" then "exit code " +:+ showCode code
                       else stderr))) /\
  (forall md, result_of (fetchVideoInfo (DumpExit code stdout stderr) u fs) = inl md ->
     Js.truthy (title md) = true /\ Js.truthy (artist md) = true /\
     thumbnail md <> None).
Proof.
  assert (E : result_of (fetchVideoInfo (DumpExit code stdout stderr) u fs)
  = (if isZero code then
       match stdout with
       | ParseError message => inr (Thrown message)
       | Parsed t up th =>
           inl {| title := Some (Js.orStr t "Untitled Video");
                  artist := Some (Js.orStr up "Unknown");
                  thumbnail := Some (Js.orStr th "") |}
       end
     else inr (Thrown (if String.eqb stderr "" then "exit code " +:+ showCode code
                       else stderr)))).
  { unfold fetchVideoInfo. erewrite bind_inl by reflexivity.
    unfold result_of at 1. cbn [fst].
    destruct (isZero code); cbn [negb]; [now destruct stdout|reflexivity]. }
  split; [exact E|]. intros md. rewrite E.
  destruct (isZero code); [|discriminate].
  destruct stdout as [m|t up th]; [discriminate|]. intros [= <-]. simpl.
  assert (G : forall o d, d <> "" -> negb (String.eqb (Js.orStr o d) "") = true).
  { intros o d Hd. unfold Js.orStr. destruct o as [s|].
    - destruct (String.eqb_spec s "") as [->|Hs].
      + destruct (String.eqb_spec d ""); [contradiction|reflexivity].
      + destruct (String.eqb_spec s ""); [contradiction|reflexivity].
    - destruct (String.eqb_spec d ""); [contradiction|reflexivity]. }
  repeat split; try (apply G; discriminate). discriminate.
Qed.
End CleanupFacts.

(* ===================================================================== *)
(** ** Further properties: the Metadata Embedder *)
(* ===================================================================== *)

Section EmbedMore.
Context `{Platform}.

(** X10.  When the download of a remote thumbnail fails, the embedder goes on
    without cover art: after the download request the Transcoder is spawned
    with the tag-only arguments, and the embedder fails only if that
    Transcoder run does. *)
Theorem thumbnail_download_failure_tag_only o filePath md t (fs : files) :
  thumbnail md = Some t -> Js.isHttpUrl t = true ->
  (forall content, thumb_fetch o <> Fetched content) ->
  trace_of (embedMetadata o filePath (Some md) fs) =
    [ HttpGet t (thumbPathOf o);
      Spawn ffmpegPath
        [ "-i"; filePath; "-c"; "copy";
          "-metadata"; "title=" +:+ Js.orStr (title md) "";
          "-metadata"; "artist=" +:+ Js.orStr (artist md) "";
          "-metadata"; "comment=Downloaded with ULTRA Downloader";
          tempPathOf filePath ] ] /\
  result_of (embedMetadata o filePath (Some md) fs) =
    match transcoder o with
    | FfSpawnFailed message => inr (Thrown message)
    | FfExit code stderr _ =>
        if isZero code then inl tt
        else inr (Thrown ("FFmpeg exited with code " +:+ showCode code
                          +:+ ". Stderr: " +:+ stderr))
    end.
Proof.
  intros Ht Hu Hfetch.
  assert (Htr : Js.truthy (Some t) = true).
  { destruct t; [discriminate|reflexivity]. }
  assert (Hr : exists fs1, resolveThumbnail o (Some md) fs
                           = (inl None, fs1, [HttpGet t (thumbPathOf o)])).
  { unfold resolveThumbnail. rewrite Ht. cbn [default from_option id].
    rewrite Htr, Hu. cbn [andb].
    unfold try_catch, downloadToFile, bind, perform, writeFile, throw, ret.
    destruct (thumb_fetch o) as [m|partial m|content]; simpl; eauto.
    now destruct (Hfetch content). }
  destruct Hr as (fs1 & Hr).
  unfold embedMetadata, try_catch.
  rewrite (bind_inl _ _ _ _ _ _ Hr).
  unfold ffmpegArgs. simpl Js.truthy. cbv iota.
  unfold runFfmpeg.
  destruct (transcoder o) as [message|code stderr output].
  - split; reflexivity.
  - destruct output as [content|]; destruct (isZero code) eqn:Hz.
    all: unfold bind, ret, perform, writeFile, try_catch, renameSync, throw,
           result_of, files_of, trace_of; simpl.
    all: rewrite ?lookup_insert_eq; simpl.
    all: try (split; reflexivity).
    destruct (fs1 !! tempPathOf filePath); simpl; split; reflexivity.
Qed.

(** X11.  A run with a remote thumbnail that goes well end to end: the
    thumbnail is fetched, the Transcoder is spawned with both inputs and
    the attached-picture disposition, its output replaces the original
    file, and neither the temporary output nor the downloaded thumbnail is
    left behind; no other file changes. *)
Theorem embed_success_replaces_and_cleans o filePath md t (fs : files)
  img code stderr out :
  thumbnail md = Some t -> Js.isHttpUrl t = true ->
  thumb_fetch o = Fetched img ->
  transcoder o = FfExit code stderr (Some out) -> isZero code = true ->
  Js.truthy (Some (thumbPathOf o)) = true ->
  Js.includes (thumbPathOf o) "thumb_" = true ->
  thumbPathOf o <> tempPathOf filePath -> thumbPathOf o <> filePath ->
  tempPathOf filePath <> filePath ->
  let run := embedMetadata o filePath (Some md) fs in
  result_of run = inl tt /\
  trace_of run =
    [ HttpGet t (thumbPathOf o);
      Spawn ffmpegPath
        [ "-i"; filePath; "-i"; thumbPathOf o; "-map"; "0"; "-map"; "1";
          "-c"; "copy";
          "-metadata"; "title=" +:+ Js.orStr (title md) "";
          "-metadata"; "artist=" +:+ Js.orStr (artist md) "";
          "-metadata"; "comment=Downloaded with ULTRA Downloader";
          "-disposition:v:1"; "attached_pic"; tempPathOf filePath ] ] /\
  files_of run !! filePath = Some out /\
  files_of run !! tempPathOf filePath = None /\
  files_of run !! thumbPathOf o = None /\
  (forall p, p <> filePath -> p <> tempPathOf filePath -> p <> thumbPathOf o ->
             files_of run !! p = fs !! p).
Proof.
  intros Ht Hu Hfetch Hff Hz Htruthy Hinc N1 N2 N3 run.
  assert (Htr : Js.truthy (Some t) = true).
  { destruct t; [discriminate|reflexivity]. }
  assert (Hr : resolveThumbnail o (Some md) fs
               = (inl (Some (thumbPathOf o)), <[thumbPathOf o := img]> fs,
                  [HttpGet t (thumbPathOf o)])).
  { unfold resolveThumbnail. rewrite Ht. cbn [default from_option id].
    rewrite Htr, Hu. cbn [andb].
    unfold try_catch, downloadToFile, bind, perform, writeFile, throw, ret.
    rewrite Hfetch. reflexivity. }
  subst run. unfold embedMetadata, try_catch.
  rewrite (bind_inl _ _ _ _ _ _ Hr).
  unfold ffmpegArgs. rewrite Htruthy. cbv iota.
  unfold runFfmpeg. rewrite Hff, Hz.
  unfold bind, ret, perform, writeFile, try_catch, renameSync, existsSync,
    unlinkSync, throw, result_of, files_of, trace_of.
  cbn [default from_option id fst snd].
  rewrite lookup_insert_eq. rewrite Htruthy, Hinc. cbn [andb].
  assert (E1 : <[filePath:=out]>
                 (delete (tempPathOf filePath)
                    (<[tempPathOf filePath:=out]> (<[thumbPathOf o:=img]> fs)))
               !! thumbPathOf o = Some img).
  { rewrite lookup_insert_ne by congruence.
    rewrite lookup_delete_ne by congruence.
    rewrite lookup_insert_ne by congruence.
    apply lookup_insert_eq. }
  rewrite E1. cbn [bool_decide decide_rel is_Some]. 
  rewrite bool_decide_eq_true_2 by eauto.
  rewrite E1. cbn [fst snd app].
  repeat split.
  - rewrite lookup_delete_ne by congruence. apply lookup_insert_eq.
  - rewrite lookup_delete_ne by congruence.
    rewrite lookup_insert_ne by congruence. apply lookup_delete_eq.
  - apply lookup_delete_eq.
  - intros p P1 P2 P3.
    rewrite lookup_delete_ne by congruence.
    rewrite lookup_insert_ne by congruence.
    rewrite lookup_delete_ne by congruence.
    rewrite !lookup_insert_ne by congruence. reflexivity.
Qed.

(** X12.  The Transcoder exits 0 but has left no output (and no stale
    temporary file exists): the failed rename is swallowed, the embedder
    returns normally, and the original file is as it was. *)
Theorem embed_zero_exit_without_output o filePath md (fs : files) code stderr :
  transcoder o = FfExit code stderr None -> isZero code = true ->
  fs !! tempPathOf filePath = None ->
  thumbPathOf o <> tempPathOf filePath -> thumbPathOf o <> filePath ->
  result_of (embedMetadata o filePath (Some md) fs) = inl tt /\
  files_of (embedMetadata o filePath (Some md) fs) !! filePath = fs !! filePath.
Proof.
  intros Hff Hz Htemp N1 N2.
  destruct (resolveThumbnail_frame o (Some md) fs) as (tp & fs1 & l & Hr & Hframe).
  unfold embedMetadata, try_catch.
  rewrite (bind_inl _ _ _ _ _ _ Hr).
  unfold ffmpegArgs, runFfmpeg. rewrite Hff, Hz.
  assert (E : fs1 !! tempPathOf filePath = None).
  { rewrite Hframe by congruence. exact Htemp. }
  destruct (Js.truthy tp);
    unfold try_catch, bind, ret, perform, writeFile, renameSync, throw, result_of,
      files_of, trace_of; cbv beta; rewrite E; cbn [fst snd];
    (split; [reflexivity|]); apply Hframe; congruence.
Qed.

Lemma rethrow_same {A} (m : M A) (fs : files) :
  result_of (try_catch m (fun message => throw message) fs) = result_of (m fs) /\
  files_of (try_catch m (fun message => throw message) fs) = files_of (m fs).
Proof.
  unfold try_catch, throw, result_of, files_of.
  destruct (m fs) as [[[a|[message| |]] fs1] l1]; split; reflexivity.
Qed.

Lemma runFfmpeg_zero o filePath tempPath thumbPath args (fs : files)
  code stderr output :
  transcoder o = FfExit code stderr output -> isZero code = true ->
  result_of (runFfmpeg o filePath tempPath thumbPath args fs) = inl tt.
Proof.
  intros Hff Hz. unfold runFfmpeg. rewrite Hff, Hz.
  erewrite bind_inl by reflexivity. unfold result_of at 1. cbn [fst].
  assert (Hw : exists fs', match output with
                           | Some content => writeFile tempPath content
                           | None => ret tt
                           end fs = (inl tt, fs', [])).
  { destruct output; eexists; reflexivity. }
  destruct Hw as (fs' & Hw).
  erewrite bind_inl by exact Hw. unfold result_of at 1. cbn [fst].
  match goal with
  | |- context [try_catch ?m _ fs'] => assert (Ht : tame (fun _ => false) m)
  end.
  { apply tame_bind; [apply tame_renameSync|]. intros _.
    destruct (_ && _); [|apply tame_ret].
    apply tame_bind; [apply tame_existsSync|].
    intros []; [apply tame_unlinkSync|apply tame_ret]. }
  destruct (Ht fs') as [Hmild _].
  destruct (swallow_mild _ tt fs' Hmild) as ([] & E).
  now rewrite E.
Qed.

(** X13.  Failure atomicity: whenever the embedder throws, whatever the
    reason, the file at [filePath] is as it was. *)
Theorem embed_failure_keeps_original o filePath metadata (fs : files) e :
  result_of (embedMetadata o filePath metadata fs) = inr e ->
  filePath <> tempPathOf filePath -> filePath <> thumbPathOf o ->
  files_of (embedMetadata o filePath metadata fs) !! filePath = fs !! filePath.
Proof.
  intros Hres N1 N2.
  destruct metadata as [md|]; [|reflexivity].
  destruct (resolveThumbnail_frame o (Some md) fs) as (tp & fs1 & l & Hr & Hframe).
  revert Hres. unfold embedMetadata.
  match goal with
  | |- context [try_catch ?m _ fs] => destruct (rethrow_same m fs) as [-> ->]
  end.
  rewrite (bind_inl _ _ _ _ _ _ Hr). unfold result_of at 1, files_of at 1. cbn [fst snd].
  assert (Ha : exists args, ffmpegArgs filePath (tempPathOf filePath) tp (Some md) fs1
                            = (inl args, fs1, [])).
  { unfold ffmpegArgs. destruct (Js.truthy tp); eexists; reflexivity. }
  destruct Ha as (args & Ha).
  rewrite (bind_inl _ _ _ _ _ _ Ha). unfold result_of at 1, files_of at 1. cbn [fst snd].
  destruct (transcoder o) as [message|code stderr output] eqn:Hff.
  - intros _. unfold runFfmpeg. rewrite Hff.
    unfold bind, perform, throw, files_of. cbn [fst snd]. apply Hframe; congruence.
  - destruct (isZero code) eqn:Hz.
    + rewrite (runFfmpeg_zero _ _ _ _ _ _ _ _ _ Hff Hz). discriminate.
    + intros _. unfold runFfmpeg. rewrite Hff, Hz.
      destruct output as [content|];
        unfold bind, ret, perform, writeFile, throw, files_of; cbn [fst snd];
        rewrite ?lookup_insert_ne by congruence; apply Hframe; congruence.
Qed.
End EmbedMore.

(* ===================================================================== *)
(** ** Further properties: the info response *)
(* ===================================================================== *)

(** From 10^21 on a height is rendered in exponent form, and its label
    reads back as its first digit. *)
Example height_label_exponent :
  let f := {| Info.vcodec := Some "avc1"; Info.acodec := None; Info.format_note := None;
              Info.height := Some (10 ^ 21); Info.ext := None; Info.filesize := None;
              Info.filesize_approx := None; Info.tbr := None; Info.format_id := None |} in
  Info.resolution (Info.to_video f) = "1e+21p" /\
  Info.resKey (Info.to_video f) = Js.Num 1.
Proof. split; vm_compute; reflexivity. Qed.

(** X14.  An entry without a format note is labelled by its height, and
    for a height below 2^53 the label reads back as that height: its sort
    key is the height (0 for a missing or zero height, labelled
    "Unknown").  The label of an entry is never empty. *)
Theorem height_label_round_trip (f : Info.RawFormat) :
  Info.resolution (Info.to_video f) <> "" /\
  (Js.truthy (Info.format_note f) = false ->
   Z.abs (default 0 (Info.height f)) < 2 ^ 53 ->
   Info.resKey (Info.to_video f) = Js.Num (default 0 (Info.height f))).
Proof.
  unfold Info.resKey. cbn [Info.to_video Info.resolution]. split.
  - destruct (Js.truthy (Info.format_note f)) eqn:Hn.
    + destruct (Info.format_note f) as [s|]; [|discriminate]. simpl in *.
      destruct (String.eqb_spec s ""); [discriminate|assumption].
    + destruct (Info.truthyZ (Info.height f)); [|discriminate].
      destruct (Js.showZ _); discriminate.
  - intros -> Hh. destruct (Info.height f) as [h|]; [|reflexivity].
    unfold Info.truthyZ. destruct (Z.eqb_spec h 0) as [->|Hne]; [reflexivity|].
    cbn [negb default from_option id] in *. now rewrite parseInt_showZ.
Qed.

(** X15.  The size estimate is the size in MiB rounded to the nearest
    integer, halves up: with the exact file size preferred over the
    approximate one (a size of 0 counts as unknown), the estimate times
    1048576 differs from the size by at most 524288 bytes, and it is not
    negative for a size that is not. *)
Theorem sizeMB_rounds_to_nearest (f : Info.RawFormat) :
  let size :=
    if Info.truthyZ (Info.filesize f) then default 0 (Info.filesize f)
    else if Info.truthyZ (Info.filesize_approx f) then default 0 (Info.filesize_approx f)
    else 0 in
  -524288 < 1048576 * Info.sizeMB (Info.to_video f) - size <= 524288 /\
  (0 <= size -> 0 <= Info.sizeMB (Info.to_video f)).
Proof.
  cbn [Info.to_video Info.sizeMB].
  assert (G : forall n, -524288 < 1048576 * Js.round_div n (1024 * 1024) - n <= 524288
                        /\ (0 <= n -> 0 <= Js.round_div n (1024 * 1024))).
  { intros n. unfold Js.round_div. change (1024 * 1024) with 1048576.
    change (2 * 1048576) with 2097152.
    pose proof (Z.div_mod (2 * n + 1048576) 2097152 ltac:(lia)) as Hd.
    pose proof (Z.mod_pos_bound (2 * n + 1048576) 2097152 ltac:(lia)) as Hm.
    split; [lia|]. intros Hn. apply Z.div_pos; lia. }
  destruct (Info.truthyZ (Info.filesize f)); [apply G|].
  destruct (Info.truthyZ (Info.filesize_approx f)); [apply G|]. lia.
Qed.


(** X16.  The AudioFormat list is sorted by descending bit rate, an entry
    without a bit rate counting as 0. *)
Theorem audio_formats_sorted (formats : option (list Info.RawFormat)) :
  StronglySorted (fun a b => (Info.a_bitrate b <= Info.a_bitrate a)%Q)
                 (Info.audioFormats formats) /\
  (forall f, Info.tbr f = None -> (Info.a_bitrate (Info.to_audio f) == 0)%Q).
Proof.
  split; [|intros f Hf; cbn [Info.to_audio Info.a_bitrate]; rewrite Hf; reflexivity].
  apply Array_sort_sorted_R.
  - intros a b. unfold Info.cmp_audio. rewrite Qle_bool_iff.
    split; intros Hle; lra.
  - intros a b. destruct (Qlt_le_dec (Info.a_bitrate a) (Info.a_bitrate b)) as [Hlt|Hle].
    + right. now apply Qlt_le_weak.
    + now left.
  - intros a b c Hab Hbc. eapply Qle_trans; eauto.
Qed.

Example formatDuration_125 : formatDuration 125 = "2:05".
Proof. reflexivity. Qed.

(** Beyond 2^53 the quotient by 60 can be rounded up to the next whole
    number, and the minutes are one too many. *)
Example formatDuration_rounded :
  formatDuration 67553994410557496 = "1125899906842625:56" /\
  67553994410557496 / 60 = 1125899906842624.
Proof. split; vm_compute; reflexivity. Qed.

Lemma two_digits_below_60 :
  forallb (fun n => String.eqb (padStart2 (Js.showZ (Z.of_nat n)))
                      (String (digitChar (Z.of_nat n / 10))
                         (String (digitChar (Z.of_nat n mod 10)) "")))
          (seq 0 60) = true.
Proof. vm_compute. reflexivity. Qed.

(** Rounding a quotient by 60 to a multiple of [1/t], [t] above 30, does
    not reach the next whole number. *)
Lemma floor_of_rounded s t :
  0 <= s -> 31 <= t ->
  let q := s * t / 60 in
  let r := (s * t) mod 60 in
  (if (60 <? 2 * r) || ((2 * r =? 60) && Z.odd q) then q + 1 else q) / t = s / 60.
Proof.
  intros Hs Ht q r.
  pose proof (Z.div_mod (s * t) 60 ltac:(lia)) as Hq.
  pose proof (Z.mod_pos_bound (s * t) 60 ltac:(lia)) as Hr.
  pose proof (Z.div_mod s 60 ltac:(lia)) as Hk.
  pose proof (Z.mod_pos_bound s 60 ltac:(lia)) as Hj.
  fold q in Hq. fold r in Hq, Hr.
  set (k := s / 60) in *. set (j := s mod 60) in *.
  assert (Hst : s * t = 60 * (k * t) + j * t) by (rewrite Hk at 1; ring).
  assert (Hjt : 0 <= j * t <= 59 * t) by nia.
  set (X := k * t) in *. set (Y := j * t) in *.
  symmetry. apply Z.div_unique with
    ((if (60 <? 2 * r) || ((2 * r =? 60) && Z.odd q) then q + 1 else q) - X * 1);
    [left|unfold X; ring].
  destruct (Z.ltb_spec 60 (2 * r)); cbn [orb]; [lia|].
  destruct (Z.eqb_spec (2 * r) 60); cbn [andb]; [|lia].
  destruct (Z.odd q); lia.
Qed.

(** Below 2^53 seconds the minutes are the exact quotient. *)
Lemma floorDivide_60 s : 0 <= s < 2 ^ 53 -> Js.floorDivide s 60 = s / 60.
Proof.
  intros Hs. unfold Js.floorDivide.
  destruct (Z.eqb_spec s 0) as [->|Hne]; [reflexivity|].
  assert (Hpos : 0 < s) by lia.
  rewrite (Z.abs_eq s) by lia. rewrite (Z.sgn_pos s Hpos).
  change (Z.log2 60) with 5.
  assert (Hl : Z.log2 s < 53) by (apply Z.log2_lt_pow2; lia).
  set (l := Z.log2 s - 5).
  set (E := if (if 0 <=? l then 60 * 2 ^ l <=? s else 60 <=? s * 2 ^ (- l))
            then l else l - 1).
  assert (HE : E - 52 <= -5).
  { subst E. destruct (if 0 <=? l then _ else _); lia. }
  destruct (Z.ltb_spec (E - 52) 0) as [_|]; [|lia].
  rewrite !Z.mul_1_l.
  apply floor_of_rounded; [lia|].
  apply Z.le_trans with (2 ^ 5); [cbn; lia|].
  apply Z.pow_le_mono_r; lia.
Qed.

(** X17.  For a whole number of seconds from 0 to below 2^53, the duration
    reads [<minutes>:<ss>]: the minutes, with all their digits, are not
    wrapped into hours, the seconds are below 60 and always take two
    digits, and minutes and seconds add up to the input. *)
Theorem formatDuration_minutes_seconds (seconds : Z) :
  0 <= seconds < 2 ^ 53 ->
  exists a b,
    0 <= a <= 5 /\ 0 <= b <= 9 /\
    formatDuration seconds
    = Js.digits (seconds / 60) +:+ ":" +:+ String (digitChar a) (String (digitChar b) "") /\
    seconds = 60 * (seconds / 60) + 10 * a + b.
Proof.
  intros Hs. unfold formatDuration. cbv zeta.
  rewrite (floorDivide_60 seconds Hs).
  rewrite Z.rem_mod_nonneg by lia.
  pose proof (Z.mod_pos_bound seconds 60 ltac:(lia)) as Hr.
  pose proof (Z.div_mod seconds 60 ltac:(lia)) as Hd.
  rewrite (showZ_digits (seconds / 60)) by nia.
  set (r := seconds mod 60) in *.
  exists (r / 10), (r mod 10).
  pose proof (Z.mod_pos_bound r 10 ltac:(lia)) as Hb.
  pose proof (Z.div_mod r 10 ltac:(lia)) as Hd2.
  assert (0 <= r / 10 <= 5) by lia.
  repeat split; try lia.
  pose proof two_digits_below_60 as G.
  rewrite forallb_forall in G.
  specialize (G (Z.to_nat r)).
  rewrite Z2Nat.id in G by lia.
  assert (Hin : In (Z.to_nat r) (seq 0 60)) by (apply in_seq; lia).
  apply G in Hin. apply String.eqb_eq in Hin. now rewrite Hin.
Qed.


(* ===================================================================== *)
(** ** Further properties: the progress stream *)
(* ===================================================================== *)

Lemma elem_of_List_filter {A} (f : A -> bool) (l : list A) x :
  x ∈ List.filter f l <-> x ∈ l /\ f x = true.
Proof. rewrite !list_elem_of_In. apply List.filter_In. Qed.

Lemma NoDup_List_filter {A} (f : A -> bool) (l : list A) :
  NoDup l -> NoDup (List.filter f l).
Proof.
  induction 1 as [|x l Hx Hnd IH]; simpl; [constructor|].
  destruct (f x); [|exact IH]. constructor; [|exact IH].
  rewrite elem_of_List_filter. tauto.
Qed.

Lemma publish_lookup e c (ls : list nat) : forall (w : gmap nat (list sse)),
  NoDup ls ->
  fold_left (fun w c => progressHandler c e w) ls w !! c
  = if bool_decide (c ∈ ls)
    then (fun sent => sent ++ [EventLine; DataLine e]) <$> (w !! c)
    else w !! c.
Proof.
  induction ls as [|l ls IH]; intros w Hnd; [reflexivity|].
  apply NoDup_cons in Hnd as [Hl Hnd]. simpl fold_left.
  rewrite IH by exact Hnd. unfold progressHandler.
  rewrite lookup_alter.
  destruct (decide (l = c)) as [->|Hne].
  - rewrite (bool_decide_eq_false_2 (c ∈ ls)) by exact Hl.
    rewrite (bool_decide_eq_true_2 (c ∈ c :: ls)) by (apply elem_of_cons; now left).
    reflexivity.
  - destruct (decide (c ∈ ls)) as [Hin|Hin].
    + rewrite (bool_decide_eq_true_2 _ Hin).
      rewrite (bool_decide_eq_true_2 (c ∈ l :: ls)) by (apply elem_of_cons; now right).
      reflexivity.
    + rewrite (bool_decide_eq_false_2 _ Hin).
      rewrite (bool_decide_eq_false_2 (c ∈ l :: ls)); [reflexivity|].
      rewrite elem_of_cons. intros [?|?]; congruence.
Qed.

Lemma in_step_connect c listening b :
  in_step c listening b ->
  in_step c (listening || (accepted b =? c)%nat) (connect b).
Proof.
  intros (Hnd & Hlt & Hin & Hw).
  unfold in_step, connect. cbn [listeners written accepted]. repeat split.
  - apply NoDup_app. split; [exact Hnd|]. split; [|apply NoDup_singleton].
    intros x Hx Hx'. apply Hlt in Hx. apply list_elem_of_singleton in Hx'. lia.
  - intros l Hl. apply elem_of_app in Hl as [Hl|Hl].
    + apply Hlt in Hl. lia.
    + apply list_elem_of_singleton in Hl. lia.
  - intros Hc. apply elem_of_app in Hc as [Hc|Hc].
    + apply Hin in Hc. now rewrite Hc.
    + apply list_elem_of_singleton in Hc. rewrite Hc, Nat.eqb_refl. apply orb_true_r.
  - intros Hl. apply elem_of_app. apply orb_prop in Hl as [Hl|Hl].
    + left. now apply Hin.
    + right. apply Nat.eqb_eq in Hl. now apply list_elem_of_singleton.
  - destruct (decide (accepted b = c)) as [<-|Hne]; [lia|].
    rewrite lookup_insert_ne by exact Hne. intros Hs. apply Hw in Hs. lia.
  - intros Hc. destruct (decide (accepted b = c)) as [<-|Hne].
    + rewrite lookup_insert_eq. eauto.
    + rewrite lookup_insert_ne by exact Hne. apply Hw. lia.
Qed.

Lemma in_step_disconnect c c' listening b :
  in_step c listening b ->
  in_step c (listening && negb (c' =? c)%nat) (disconnect c' b).
Proof.
  intros (Hnd & Hlt & Hin & Hw).
  unfold in_step, disconnect. cbn [listeners written accepted]. repeat split.
  - now apply NoDup_List_filter.
  - intros l Hl. apply elem_of_List_filter in Hl as [Hl _]. now apply Hlt.
  - intros Hc. apply elem_of_List_filter in Hc as [Hc Hne].
    apply Hin in Hc. rewrite Hc. simpl.
    destruct (Nat.eqb_spec c' c) as [->|]; [|reflexivity].
    rewrite Nat.eqb_refl in Hne. discriminate.
  - intros Hl. apply andb_prop in Hl as [Hl Hne]. apply elem_of_List_filter.
    split; [now apply Hin|].
    destruct (Nat.eqb_spec c' c) as [->|Hc]; [discriminate|].
    destruct (Nat.eqb_spec c c'); [congruence|reflexivity].
  - apply Hw.
  - apply Hw.
Qed.

Lemma in_step_publish c e listening b :
  in_step c listening b -> in_step c listening (publish e b).
Proof.
  intros (Hnd & Hlt & Hin & Hw).
  unfold in_step, publish. cbn [listeners written accepted].
  split; [exact Hnd|]. split; [exact Hlt|]. split; [exact Hin|].
  rewrite publish_lookup by exact Hnd.
  destruct (bool_decide (c ∈ listeners b)); [|exact Hw].
  rewrite <- Hw. destruct (written b !! c); simpl; split; intros [x Hx]; eauto;
    discriminate.
Qed.

Lemma serve_from c acts : forall b listening,
  in_step c listening b ->
  written (fold_left act acts b) !! c
  = if (c <? accepted b + connects acts)%nat
    then Some (default [] (written b !! c)
               ++ flat_map (fun e => [EventLine; DataLine e])
                    (due c (accepted b) listening acts))
    else None.
Proof.
  induction acts as [|a acts IH]; intros b listening Hstep.
  - destruct Hstep as (Hnd & Hlt & Hin & Hw).
    simpl. unfold connects. simpl. rewrite Nat.add_0_r, app_nil_r.
    destruct (Nat.ltb_spec c (accepted b)) as [Hc|Hc].
    + apply Hw in Hc as [w ->]. reflexivity.
    + destruct (written b !! c) eqn:E; [|reflexivity].
      assert (c < accepted b)%nat by (apply Hw; eauto). lia.
  - destruct a as [|c'|e]; cbn [fold_left act].
    + rewrite (IH _ _ (in_step_connect _ _ _ Hstep)).
      destruct Hstep as (Hnd & Hlt & Hin & Hw).
      unfold connects. cbn [List.filter List.length connect accepted written due].
      rewrite Nat.add_succ_r.
      destruct (_ <? _)%nat; [|reflexivity].
      destruct (decide (accepted b = c)) as [<-|Hne].
      * rewrite lookup_insert_eq.
        destruct (written b !! accepted b) eqn:E; [|reflexivity].
        assert (accepted b < accepted b)%nat by (apply Hw; eauto). lia.
      * now rewrite lookup_insert_ne.
    + rewrite (IH _ _ (in_step_disconnect _ c' _ _ Hstep)). reflexivity.
    + rewrite (IH _ _ (in_step_publish _ e _ _ Hstep)).
      destruct Hstep as (Hnd & Hlt & Hin & Hw).
      unfold connects. cbn [List.filter publish accepted written due].
      destruct (_ <? _)%nat; [|reflexivity].
      rewrite publish_lookup by exact Hnd.
      destruct listening.
      * rewrite bool_decide_eq_true_2 by now apply Hin.
        assert (Hs : is_Some (written b !! c)) by (apply Hw, Hlt; now apply Hin).
        destruct Hs as [w ->]. simpl. now rewrite <- List.app_assoc.
      * rewrite bool_decide_eq_false_2; [reflexivity|].
        intros Hc. apply Hin in Hc. discriminate.
Qed.

(** X18.  The progress stream is a plain broadcast: whatever clients connect
    and disconnect and whatever is published in between, the response of
    the connection accepted as number [c] has been sent exactly, and in
    order, the two chunks of each event published while it was connected:
    nothing from before it connected, nothing after its request closed. *)
Theorem stream_receives_what_is_due (acts : list action) (c : nat) :
  written (serve acts) !! c
  = if (c <? connects acts)%nat
    then Some (flat_map (fun e => [EventLine; DataLine e]) (due c 0 false acts))
    else None.
Proof.
  unfold serve. rewrite (serve_from c acts bus0 false).
  - reflexivity.
  - unfold in_step, bus0. cbn [listeners written accepted]. repeat split.
    + apply NoDup_nil_2.
    + intros l Hl. now apply elem_of_nil in Hl.
    + intros Hl. now apply elem_of_nil in Hl.
    + discriminate.
    + rewrite lookup_empty. intros [x Hx]. discriminate.
    + lia.
Qed.

(* ===================================================================== *)
(** ** Further properties: events and thumbnails *)
(* ===================================================================== *)

Section LastBatch.
Context `{Platform}.

(** X19.  The completion event goes with the success answer and with nothing
    else: a request publishes exactly one completion event when it is
    answered with a success body, and none otherwise. *)
Theorem completion_iff_success (req : Request) (o : oracle) (fs : files) :
  count isComplete (trace_of (download req o fs))
  = if isSuccess (result_of (download req o fs)) then 1%nat else O.
Proof.
  destruct (Js.truthy (url req)) eqn:Hurl.
  2:{ unfold download. rewrite Hurl. reflexivity. }
  destruct (download_run req o fs Hurl) as (t & fs1 & sent & HS & Hrun).
  destruct (schedule_counts _ _ (filteredArgs_attempt _ _ _ _) _ _ _ _ _ _ HS)
    as (_ & _ & _ & _ & _ & C5); [unfold maxRetries; lia|].
  destruct sent as [r|].
  - destruct (schedule_sent _ _ _ _ _ _ _ _ HS) as (m & ->).
    rewrite Hrun. unfold trace_of, result_of. simpl. exact C5.
  - destruct Hrun as (fs2 & t2 & Q2 & Hrun).
    pose proof (count_embed _ _ embed_not_complete Q2) as C2.
    destruct (refetch o); rewrite Hrun; unfold trace_of, result_of; simpl.
    + now rewrite count_app, C5, C2.
    + now rewrite !count_app, C5, C2.
Qed.

Lemma runCallbacks_ending_trace final e0 late chunks : forall (fs : files),
  exists t1 t2 t3,
    trace_of (runCallbacks final (Pending, true)
                (map Output chunks ++ Ending e0 :: late) fs)
    = t1 ++ t2 ++ t3 /\
    t2 = trace_of (onEnding final (Pending, true) e0
                     (afterCallbacks (map Output chunks) fs)).
Proof.
  induction chunks as [|c chunks IH]; intros fs.
  - cbn [map app runCallbacks onCallback afterCallbacks fold_left].
    destruct (onEnding_run final (Pending, true) e0 fs) as (t & E & _).
    destruct (runCallbacks_run final late (endState final (Pending, true) e0 fs) fs)
      as (t' & E' & _).
    exists [], t, t'. rewrite E. split; [|reflexivity].
    erewrite bind_run by eauto. reflexivity.
  - cbn [map app runCallbacks afterCallbacks fold_left].
    destruct (onChunk_run c fs) as (t & E & _).
    destruct (IH (writesOf fs (Output c))) as (t1 & t2 & t3 & E2 & E3).
    exists (t ++ t1), t2, t3. split; [|exact E3].
    assert (Ec : onCallback final (Pending, true) (Output c) fs
                 = (inl (Pending, true), writesOf fs (Output c), t)).
    { unfold onCallback. rewrite <- (app_nil_r t).
      eapply bind_run; [exact E|reflexivity]. }
    rewrite (bind_inl _ _ _ _ _ _ Ec). unfold trace_of at 1. cbn [snd].
    rewrite E2. now rewrite <- List.app_assoc.
Qed.

(** X20.  Every failed attempt is mirrored on the progress channel: an
    attempt that fails, for whichever of the four reasons, has published an
    error event by the time its promise is rejected, before the handler
    goes on. *)
Theorem failed_attempt_publishes_error args final (a : attempt) (fs : files) message :
  failure final a fs = Some message ->
  (1 <= count isFailure (trace_of (attemptDownload args final a fs)))%nat.
Proof.
  intros Hf.
  unfold attemptDownload.
  erewrite bind_inl by reflexivity. unfold trace_of at 1. cbn [snd].
  erewrite bind_inl by reflexivity. unfold trace_of at 1. cbn [snd].
  destruct (runCallbacks_run final (map Output (chunks a) ++ [Ending (ending_of a)])
              (Pending, true) fs) as (t & E & _).
  rewrite (bind_inl _ _ _ _ _ _ E). unfold trace_of at 1. cbn [snd].
  destruct (runCallbacks_ending_trace final (ending_of a) [] (chunks a) fs)
    as (t1 & t2 & t3 & E1 & E2).
  rewrite E in E1. unfold trace_of at 1 in E1.
  cbn [snd] in E1. subst t.
  rewrite !count_app.
  assert (1 <= count isFailure t2)%nat; [|lia].
  subst t2. revert Hf. unfold failure, onEnding.
  destruct (ending_of a) as [code|m|].
  - unfold bind, perform, emit, ret, existsSync, trace_of.
    destruct (isZero code); cbn [negb].
    + destruct (bool_decide _); [discriminate|]. intros _.
      cbn [fst snd app negb]. unfold count. simpl. lia.
    + intros _. unfold count. simpl. lia.
  - intros _. unfold bind, perform, emit, ret, trace_of, count. simpl. lia.
  - intros _. unfold bind, perform, emit, ret, trace_of, count. simpl. lia.
Qed.
End LastBatch.

Section EmbedLast.
Context `{Platform}.

(** X21.  A cover image given as an existing local path without [thumb_]
    in it is used as the second input and survives a successful run: the
    output replaces the original file and the cover is still there. *)
Theorem local_thumbnail_used_and_kept o filePath md t (fs : files)
  img code stderr out :
  thumbnail md = Some t -> t <> "" -> Js.isHttpUrl t = false ->
  fs !! t = Some img -> Js.includes t "thumb_" = false ->
  transcoder o = FfExit code stderr (Some out) -> isZero code = true ->
  t <> tempPathOf filePath -> t <> filePath ->
  let run := embedMetadata o filePath (Some md) fs in
  result_of run = inl tt /\
  trace_of run =
    [ Spawn ffmpegPath
        [ "-i"; filePath; "-i"; t; "-map"; "0"; "-map"; "1"; "-c"; "copy";
          "-metadata"; "title=" +:+ Js.orStr (title md) "";
          "-metadata"; "artist=" +:+ Js.orStr (artist md) "";
          "-metadata"; "comment=Downloaded with ULTRA Downloader";
          "-disposition:v:1"; "attached_pic"; tempPathOf filePath ] ] /\
  files_of run !! filePath = Some out /\
  files_of run !! t = Some img.
Proof.
  intros Ht Hne Hu Hex Hinc Hff Hz N1 N2 run.
  assert (Htr : Js.truthy (Some t) = true).
  { destruct t as [|c t']; [congruence|reflexivity]. }
  assert (Hr : resolveThumbnail o (Some md) fs = (inl (Some t), fs, [])).
  { unfold resolveThumbnail. rewrite Ht. cbn [default from_option id].
    rewrite Htr, Hu. cbn [andb].
    unfold bind, existsSync, ret. rewrite Hex.
    rewrite bool_decide_eq_true_2 by eauto. reflexivity. }
  subst run. unfold embedMetadata, try_catch.
  rewrite (bind_inl _ _ _ _ _ _ Hr).
  unfold ffmpegArgs. rewrite Htr. cbv iota.
  unfold runFfmpeg. rewrite Hff, Hz.
  unfold bind, ret, perform, writeFile, try_catch, renameSync, existsSync,
    unlinkSync, throw, result_of, files_of, trace_of.
  cbn [default from_option id fst snd].
  rewrite lookup_insert_eq. rewrite Htr, Hinc. cbn [andb fst snd app].
  repeat split.
  - apply lookup_insert_eq.
  - rewrite lookup_insert_ne by congruence.
    rewrite lookup_delete_ne by congruence.
    rewrite lookup_insert_ne by congruence. exact Hex.
Qed.

(** X22.  A thumbnail the embedder has downloaded is removed only after a
    zero exit: when the Transcoder cannot be spawned or exits non-zero, the
    downloaded file stays in the downloads directory. *)
Theorem downloaded_thumbnail_stays_on_failure o filePath md t (fs : files) img :
  thumbnail md = Some t -> Js.isHttpUrl t = true ->
  thumb_fetch o = Fetched img ->
  match transcoder o with
  | FfSpawnFailed _ => True
  | FfExit code _ _ => isZero code = false
  end ->
  thumbPathOf o <> tempPathOf filePath ->
  (exists e, result_of (embedMetadata o filePath (Some md) fs) = inr e) /\
  files_of (embedMetadata o filePath (Some md) fs) !! thumbPathOf o = Some img.
Proof.
  intros Ht Hu Hfetch Hff N1.
  assert (Htr : Js.truthy (Some t) = true).
  { destruct t; [discriminate|reflexivity]. }
  assert (Hr : resolveThumbnail o (Some md) fs
               = (inl (Some (thumbPathOf o)), <[thumbPathOf o := img]> fs,
                  [HttpGet t (thumbPathOf o)])).
  { unfold resolveThumbnail. rewrite Ht. cbn [default from_option id].
    rewrite Htr, Hu. cbn [andb].
    unfold try_catch, downloadToFile, bind, perform, writeFile, throw, ret.
    rewrite Hfetch. reflexivity. }
  unfold embedMetadata, try_catch.
  rewrite (bind_inl _ _ _ _ _ _ Hr).
  unfold ffmpegArgs, runFfmpeg.
  destruct (transcoder o) as [message|code stderr output].
  - destruct (Js.truthy (Some (thumbPathOf o)));
      unfold bind, ret, perform, throw, result_of, files_of, trace_of; simpl;
      (split; [eauto|apply lookup_insert_eq]).
  - rewrite Hff.
    destruct (Js.truthy (Some (thumbPathOf o))), output as [content|];
      unfold bind, ret, perform, writeFile, throw, result_of, files_of, trace_of;
      simpl; (split; [eauto|]);
      rewrite ?lookup_insert_ne by congruence; apply lookup_insert_eq.
Qed.
End EmbedLast.

(* ===================================================================== *)
(** ** Instances of the further properties *)
(* ===================================================================== *)

Example stream_run :
  written (serve acts0) !! 0%nat
  = Some [ EventLine; DataLine (Percent 50); EventLine; DataLine (Percent 100) ] /\
  written (serve acts0) !! 1%nat
  = Some [ EventLine; DataLine (Percent 100);
           EventLine; DataLine (Complete "abc.mp4") ] /\
  written (serve acts0) !! 2%nat = None.
Proof. vm_compute. repeat split. Qed.

Lemma missing_url_rejected_witness :
  Js.truthy (url req_nourl) = false /\
  @download posix req_nourl w_ok ∅
  = (inl {| status := 400; body_of := ErrorBody "Missing URL" None |}, ∅, []).
Proof.
  split; [reflexivity|].
  exact (@missing_url_rejected posix req_nourl w_ok ∅ eq_refl).
Defined.

Lemma answer_tells_outcome_witness :
  result_of (@download posix req0 w_exhausted ∅)
  = inl {| status := 500;
           body_of := ErrorBody "Download failed after retries"
                        (Some "File not created") |} /\
  allFail final0 3 (attempts w_exhausted) ∅ = true.
Proof.
  assert (E : result_of (@download posix req0 w_exhausted ∅)
              = inl {| status := 500;
                       body_of := ErrorBody "Download failed after retries"
                                    (Some "File not created") |})
    by (vm_compute; reflexivity).
  split; [exact E|].
  destruct (@answer_tells_outcome posix req0 w_exhausted ∅ _ E)
    as [[Hu _]|[(_ & Hall & _)|(_ & _ & Hr)]].
  - discriminate Hu.
  - exact Hall.
  - discriminate Hr.
Defined.

Lemma retry_announcements_numbered_witness :
  Js.truthy (url req0) = true /\
  exists k, (k <= maxRetries)%nat /\
    List.filter isRetry (trace_of (@download posix req0 w_exhausted ∅))
    = map (fun n => Emit (StatusPercent
                            ("Retrying download... (" +:+ Js.showZ (Z.of_nat n)
                             +:+ "/3)") 0))
          (seq 1 k).
Proof.
  split; [reflexivity|].
  exact (@retry_announcements_numbered posix req0 w_exhausted ∅ eq_refl).
Defined.

Lemma scraped_percent_nonnegative_witness :
  In (Emit (Percent (425 # 10)))
     (trace_of (onChunk (Stdout "[download]  42.5% of 10MiB") ∅)) /\
  (0 <= 425 # 10)%Q.
Proof.
  assert (Hin : In (Emit (Percent (425 # 10)))
                   (trace_of (onChunk (Stdout "[download]  42.5% of 10MiB") ∅)))
    by (vm_compute; auto).
  split; [exact Hin|].
  exact (scraped_percent_nonnegative
           (Stdout "[download]  42.5% of 10MiB") ∅ (Percent (425 # 10)) Hin).
Defined.

Lemma thumbnail_download_failure_tag_only_witness :
  thumbnail md_remote = Some "https://img.example.com/t.jpg" /\
  Js.isHttpUrl "https://img.example.com/t.jpg" = true /\
  (forall content, thumb_fetch embed_getfail <> Fetched content) /\
  result_of (@embedMetadata posix embed_getfail final0 (Some md_remote) fs_final) = inl tt.
Proof.
  assert (Hf : forall content, thumb_fetch embed_getfail <> Fetched content)
    by (intros content; discriminate).
  split; [reflexivity|]. split; [reflexivity|]. split; [exact Hf|].
  exact (proj2 (@thumbnail_download_failure_tag_only posix embed_getfail final0
                  md_remote "https://img.example.com/t.jpg" fs_final
                  eq_refl eq_refl Hf)).
Defined.

Lemma embed_success_replaces_and_cleans_witness :
  @thumbPathOf posix embed_ok <> @tempPathOf posix final0 /\
  @thumbPathOf posix embed_ok <> final0 /\
  @tempPathOf posix final0 <> final0 /\
  files_of (@embedMetadata posix embed_ok final0 (Some md_remote) fs_final) !! final0
  = Some "tagged video" /\
  files_of (@embedMetadata posix embed_ok final0 (Some md_remote) fs_final)
    !! @thumbPathOf posix embed_ok = None.
Proof.
  assert (N1 : @thumbPathOf posix embed_ok <> @tempPathOf posix final0)
    by (vm_compute; discriminate).
  assert (N2 : @thumbPathOf posix embed_ok <> final0) by (vm_compute; discriminate).
  assert (N3 : @tempPathOf posix final0 <> final0) by (vm_compute; discriminate).
  split; [exact N1|]. split; [exact N2|]. split; [exact N3|].
  destruct (@embed_success_replaces_and_cleans posix embed_ok final0 md_remote
              "https://img.example.com/t.jpg" fs_final "jpeg" (Some 0) ""
              "tagged video" eq_refl eq_refl eq_refl eq_refl eq_refl eq_refl eq_refl
              N1 N2 N3) as (_ & _ & E1 & _ & E3 & _).
  split; [exact E1|exact E3].
Defined.

Lemma embed_zero_exit_without_output_witness :
  fs_final !! @tempPathOf posix final0 = None /\
  result_of (@embedMetadata posix embed_nooutput final0 (Some md_remote) fs_final) = inl tt /\
  files_of (@embedMetadata posix embed_nooutput final0 (Some md_remote) fs_final) !! final0
  = fs_final !! final0.
Proof.
  assert (Ht : fs_final !! @tempPathOf posix final0 = None) by (vm_compute; reflexivity).
  split; [exact Ht|].
  apply (@embed_zero_exit_without_output posix embed_nooutput final0 md_remote fs_final
           (Some 0) "" eq_refl eq_refl Ht); vm_compute; discriminate.
Defined.

Lemma embed_failure_keeps_original_witness :
  result_of (@embedMetadata posix embed_nospawn final0 (Some md_remote) fs_final)
  = inr (Thrown "spawn C:\ffmpeg\bin\ffmpeg.exe ENOENT") /\
  files_of (@embedMetadata posix embed_nospawn final0 (Some md_remote) fs_final) !! final0
  = fs_final !! final0.
Proof.
  assert (E : result_of (@embedMetadata posix embed_nospawn final0 (Some md_remote) fs_final)
              = inr (Thrown "spawn C:\ffmpeg\bin\ffmpeg.exe ENOENT"))
    by (vm_compute; reflexivity).
  split; [exact E|].
  apply (@embed_failure_keeps_original posix embed_nospawn final0 (Some md_remote)
           fs_final _ E); vm_compute; discriminate.
Defined.

Lemma formatDuration_minutes_seconds_witness :
  0 <= 3725 < 2 ^ 53 /\
  exists a b,
    0 <= a <= 5 /\ 0 <= b <= 9 /\
    formatDuration 3725
    = Js.digits (3725 / 60) +:+ ":" +:+ String (digitChar a) (String (digitChar b) "") /\
    3725 = 60 * (3725 / 60) + 10 * a + b.
Proof.
  assert (Hs : 0 <= 3725 < 2 ^ 53) by (split; [lia|reflexivity]).
  split; [exact Hs|]. exact (formatDuration_minutes_seconds 3725 Hs).
Defined.

Lemma height_label_round_trip_witness :
  Js.truthy (Info.format_note (hd raw0 spec_example_formats)) = false /\
  Z.abs (default 0 (Info.height (hd raw0 spec_example_formats))) < 2 ^ 53 /\
  Info.resKey (Info.to_video (hd raw0 spec_example_formats)) = Js.Num 1080.
Proof.
  split; [reflexivity|]. split; [reflexivity|].
  exact (proj2 (height_label_round_trip (hd raw0 spec_example_formats)) eq_refl eq_refl).
Defined.

Lemma failed_attempt_publishes_error_witness :
  failure final0 att_timeout ∅ = Some "Download timed out" /\
  (1 <= count isFailure (trace_of (attemptDownload [] final0 att_timeout ∅)))%nat.
Proof.
  split; [reflexivity|].
  exact (failed_attempt_publishes_error [] final0 att_timeout ∅
           "Download timed out" eq_refl).
Defined.

Lemma local_thumbnail_used_and_kept_witness :
  fs_plain !! plain_cover = Some "cover" /\
  Js.includes plain_cover "thumb_" = false /\
  files_of (@embedMetadata posix embed_ok final0 (Some md_plain) fs_plain) !! final0
  = Some "tagged video" /\
  files_of (@embedMetadata posix embed_ok final0 (Some md_plain) fs_plain) !! plain_cover
  = Some "cover".
Proof.
  assert (Hex : fs_plain !! plain_cover = Some "cover") by (vm_compute; reflexivity).
  split; [exact Hex|]. split; [reflexivity|].
  destruct (@local_thumbnail_used_and_kept posix embed_ok final0 md_plain plain_cover
              fs_plain "cover" (Some 0) "" "tagged video"
              eq_refl ltac:(discriminate) eq_refl Hex eq_refl eq_refl eq_refl
              ltac:(vm_compute; discriminate) ltac:(vm_compute; discriminate))
    as (_ & _ & E1 & E2).
  split; [exact E1|exact E2].
Defined.

Lemma downloaded_thumbnail_stays_on_failure_witness :
  thumb_fetch embed_fail = Fetched "jpeg" /\
  files_of (@embedMetadata posix embed_fail final0 (Some md_remote) fs_final)
    !! @thumbPathOf posix embed_fail = Some "jpeg".
Proof.
  split; [reflexivity|].
  exact (proj2 (@downloaded_thumbnail_stays_on_failure posix embed_fail final0 md_remote
                  "https://img.example.com/t.jpg" fs_final "jpeg"
                  eq_refl eq_refl eq_refl eq_refl ltac:(vm_compute; discriminate))).
Defined.
